(** * mintID: the pay-then-airdrop mint server (src/server.js)

    A shallow embedding of the deposit watcher of the mint server: the
    two SQLite tables, the deposit classifier, [getStakeKeyFromAddr],
    [mintAndSend] and [scanForPayments].

    JavaScript runs every stretch of code between two [await]s to
    completion, and every better-sqlite3 statement is synchronous.  An
    [async] function is therefore embedded as a coroutine: a continuation
    type with one constructor per [await], and a function [resume] that
    runs the code from one [await] to the next on the answer of the
    external party.  All the passes started by [setInterval] share one
    store; an interleaving of passes is a list of scheduler decisions. *)

From stdpp Require Import base decidable option list strings pretty.
From Stdlib Require Import Ascii ZArith Lia.

Local Open Scope string_scope.
Local Open Scope list_scope.
Local Open Scope Z_scope.

(** ** JavaScript values *)

(** [x || null] and [!x] on a value that is a string or undefined: the
    empty string is falsy. *)
Definition truthy (x : option string) : option string :=
  match x with
  | Some s => if decide (s = "") then None else Some s
  | None => None
  end.

(** *** [BigInt(string)]

    StringToBigInt of ECMAScript: white space is trimmed on both sides,
    an empty literal is [0n], then either an optionally signed run of
    decimal digits or an unsigned [0x], [0o] or [0b] literal.  Anything
    else raises a SyntaxError, here [None].  A string is read as the
    UTF-8 encoding of the JavaScript string. *)
Module JsBigInt.

Definition code (c : ascii) : Z := Z.of_N (Ascii.N_of_ascii c).

(** One-byte StrWhiteSpaceChar: TAB, LF, VT, FF, CR, SP. *)
Definition ws1 (c : ascii) : bool :=
  let n := code c in ((9 <=? n) && (n <=? 13)) || (n =? 32).

(** U+00A0. *)
Definition ws2 (c1 c2 : ascii) : bool :=
  (code c1 =? 194) && (code c2 =? 160).

(** U+1680, U+2000..U+200A, U+2028, U+2029, U+202F, U+205F, U+3000,
    U+FEFF. *)
Definition ws3 (c1 c2 c3 : ascii) : bool :=
  let a := code c1 in let b := code c2 in let c := code c3 in
  ((a =? 225) && (b =? 154) && (c =? 128))
  || ((a =? 226) && (b =? 128)
      && (((128 <=? c) && (c <=? 138)) || (c =? 168) || (c =? 169)
          || (c =? 175)))
  || ((a =? 226) && (b =? 129) && (c =? 159))
  || ((a =? 227) && (b =? 128) && (c =? 128))
  || ((a =? 239) && (b =? 187) && (c =? 191)).

Fixpoint strip_ws (s : string) : string :=
  match s with
  | String c1 r1 =>
      if ws1 c1 then strip_ws r1
      else match r1 with
           | String c2 r2 =>
               if ws2 c1 c2 then strip_ws r2
               else match r2 with
                    | String c3 r3 =>
                        if ws3 c1 c2 c3 then strip_ws r3 else s
                    | EmptyString => s
                    end
           | EmptyString => s
           end
  | EmptyString => s
  end.

Definition all_ws (s : string) : bool :=
  match strip_ws s with EmptyString => true | String _ _ => false end.

(** The value of a digit in the given radix. *)
Definition digit (radix : Z) (c : ascii) : option Z :=
  let n := code c in
  let d := if (48 <=? n) && (n <=? 57) then n - 48
           else if (97 <=? n) && (n <=? 102) then n - 87
           else if (65 <=? n) && (n <=? 70) then n - 55
           else radix in
  if d <? radix then Some d else None.

(** The digits after the first one; what follows them must be white
    space up to the end. *)
Fixpoint digits (radix : Z) (s : string) (acc : Z) : option Z :=
  match s with
  | EmptyString => Some acc
  | String c r =>
      match digit radix c with
      | Some d => digits radix r (acc * radix + d)
      | None => if all_ws s then Some acc else None
      end
  end.

(** At least one digit. *)
Definition number (radix : Z) (s : string) : option Z :=
  match s with
  | String c r =>
      match digit radix c with
      | Some d => digits radix r d
      | None => None
      end
  | EmptyString => None
  end.

Definition BigInt (s : string) : option Z :=
  match strip_ws s with
  | EmptyString => Some 0
  | String "+" r => number 10 r
  | String "-" r => Z.opp <$> number 10 r
  | String "0" (String ("x" | "X") r) => number 16 r
  | String "0" (String ("o" | "O") r) => number 8 r
  | String "0" (String ("b" | "B") r) => number 2 r
  | t => number 10 t
  end.

(** One of the characters ["0"] .. ["9"]. *)
Definition dec_char (c : ascii) : Prop :=
  exists d : N, (d < 10)%N /\ c = pretty_N_char d.

Fixpoint all_dec (s : string) : Prop :=
  match s with
  | EmptyString => True
  | String c r => dec_char c /\ all_dec r
  end.

End JsBigInt.

(** ** Data from the collaborators *)

(** An entry of [u.amount], "an array like [{unit:'lovelace',
    quantity:'5000000'}, ...]": the quantity comes as a string. *)
Record Amount := { unit : string; quantity : string }.

(** An element of [/addresses/<addr>/utxos]. *)
Record Utxo := {
  tx_hash : string;
  output_index : N;
  amount : list Amount
}.

(** The answer of [/txs/<hash>/utxos], as far as the watcher reads it:
    [txUtxos?.inputs?.[0]?.address]. *)
Record TxInput := { address : option string }.
Record TxUtxos := { inputs : option (list TxInput) }.

(** What [lucid.utils.getAddressDetails] returns, as far as it is read:
    [d.stakeCredential?.hash]. *)
Record Credential := { hash : string }.
Record AddressDetails := { stakeCredential : option Credential }.

(** An entry of [designs.json]. *)
Record Design := {
  name : string;
  cid : string;
  mediaType : option string
}.

#[global] Instance Amount_eq_dec : EqDecision Amount.
Proof. solve_decision. Defined.
#[global] Instance Utxo_eq_dec : EqDecision Utxo.
Proof. solve_decision. Defined.
#[global] Instance Design_eq_dec : EqDecision Design.
Proof. solve_decision. Defined.

(** ** The store: the two tables of [mint.sqlite]

    [id] and [created_at] are filled in by SQLite and never read by the
    server; they are left out of the rows. *)
Record MintRow := {
  stake_key : string;            (* TEXT UNIQUE *)
  payer_address : string;
  paid_tx : string;              (* TEXT UNIQUE *)
  minted_tx : option string;     (* NULL until the mint is submitted *)
  asset_name : option string
}.

Record DB := {
  mints : list MintRow;
  seen_utxos : list string       (* utxo TEXT PRIMARY KEY *)
}.

#[global] Instance MintRow_eq_dec : EqDecision MintRow.
Proof. solve_decision. Defined.
#[global] Instance DB_eq_dec : EqDecision DB.
Proof. solve_decision. Defined.

Definition empty_db : DB := {| mints := []; seen_utxos := [] |}.

(** A row as the INSERT of [mintAndSend] writes it, and the table with one
    more row. *)
Definition pending_row (stakeKey payerAddress paidTx : string) : MintRow :=
  {| stake_key := stakeKey;
     payer_address := payerAddress;
     paid_tx := paidTx;
     minted_tx := None;
     asset_name := None |}.

Definition with_row (db : DB) (r : MintRow) : DB :=
  {| mints := mints db ++ [r]; seen_utxos := seen_utxos db |}.

Module Sql.

(** [SELECT 1 FROM seen_utxos WHERE utxo=?] *)
Definition select_seen (db : DB) (utxoId : string) : bool :=
  bool_decide (utxoId ∈ seen_utxos db).

(** [INSERT OR IGNORE INTO seen_utxos (utxo) VALUES (?)] *)
Definition insert_seen (db : DB) (utxoId : string) : DB :=
  if select_seen db utxoId then db
  else {| mints := mints db; seen_utxos := seen_utxos db ++ [utxoId] |}.

(** [SELECT 1 FROM mints WHERE stake_key=?] *)
Definition select_stake (db : DB) (stakeKey : string) : option MintRow :=
  head (filter (fun r => stake_key r = stakeKey) (mints db)).

(** A new row conflicts with a row that has its [stake_key] or its
    [paid_tx]: both columns are UNIQUE. *)
Definition conflicts (stakeKey paidTx : string) (r : MintRow) : bool :=
  bool_decide (stake_key r = stakeKey) || bool_decide (paid_tx r = paidTx).

(** [INSERT OR IGNORE INTO mints (stake_key, payer_address, paid_tx)
    VALUES (?, ?, ?)]; the second component is [res.changes]. *)
Definition insert_mint (db : DB) (stakeKey payerAddress paidTx : string)
  : DB * nat :=
  if existsb (conflicts stakeKey paidTx) (mints db) then (db, 0%nat)
  else (with_row db (pending_row stakeKey payerAddress paidTx), 1%nat).

Definition set_minted (txHash assetName paidTx : string) (r : MintRow)
  : MintRow :=
  if decide (paid_tx r = paidTx)
  then {| stake_key := stake_key r;
          payer_address := payer_address r;
          paid_tx := paid_tx r;
          minted_tx := Some txHash;
          asset_name := Some assetName |}
  else r.

(** [UPDATE mints SET minted_tx=?, asset_name=? WHERE paid_tx=?] *)
Definition update_minted (db : DB) (txHash assetName paidTx : string) : DB :=
  {| mints := set_minted txHash assetName paidTx <$> mints db;
     seen_utxos := seen_utxos db |}.

End Sql.

(** The three statements that write to the store. *)
Inductive Op :=
| OpClaim (stakeKey payerAddress paidTx : string)   (* INSERT OR IGNORE INTO mints *)
| OpMinted (txHash assetName paidTx : string)       (* UPDATE mints *)
| OpSeen (utxoId : string).                         (* INSERT OR IGNORE INTO seen_utxos *)

#[global] Instance Op_eq_dec : EqDecision Op.
Proof. solve_decision. Defined.

(** ** What a pass does: requests, writes to the store and console lines *)
Inductive LogLine :=
| LDuplicate (stakeKey : string)            (* 'Duplicate attempt for stake:' *)
| LMinted (design payerAddress txHash : string)
| LNoPayer (tx : string)                    (* 'No payer address found for tx' *)
| LNoStake (tx : string)                    (* 'No stake key on payer address' *)
| LAlready (stakeKey tx : string)           (* 'Stake already minted' *)
| LProcessed (tx mintedTx : string)         (* 'Processed payment' *)
| LMintFailed (tx : string)                 (* 'Mint failed for' *)
| LScanError.                               (* 'scan error:' *)

Inductive Event :=
| FetchPage                                 (* fetchJson(/addresses/../utxos) *)
| FetchTx (tx : string)                     (* fetchJson(/txs/<tx>/utxos) *)
| Issue (payerAddress stakeKey paidTx : string) (design : Design)
                                            (* the mint transaction is built *)
| Write (o : Op)                            (* [db.prepare(...).run(...)] *)
| Log (l : LogLine).

#[global] Instance LogLine_eq_dec : EqDecision LogLine.
Proof. solve_decision. Defined.
#[global] Instance Event_eq_dec : EqDecision Event.
Proof. solve_decision. Defined.

(** ** The server *)

(** The promise of [mintAndSend] once settled: resolved with the mint
    transaction hash, resolved with [undefined] (duplicate), or rejected. *)
Inductive Settled :=
| Resolved (mintedTx : option string)
| Rejected.

(** Where [mintAndSend] stands when it first gives up control. *)
Inductive MintStart :=
| MReturned                     (* [return;] on a duplicate *)
| MThrew                        (* raised before the transaction was built *)
| MAwait (design : Design).     (* waiting for build, sign and submit *)

(** A pass of [scanForPayments], suspended at one of its [await]s. *)
Inductive Cont :=
| KPage
    (* [await fetchJson(`/addresses/${serverAddress}/utxos?...`)] *)
| KInputs (u : Utxo) (rest : list Utxo)
    (* [await fetchJson(`/txs/${u.tx_hash}/utxos`)] *)
| KIssue (u : Utxo) (payerAddr stakeKey : string) (design : Design)
         (rest : list Utxo)
    (* inside [mintAndSend]: [await ...complete()], [await tx.sign()...],
       [await signed.submit()] *)
| KMintDone (u : Utxo) (r : Settled) (rest : list Utxo)
    (* [await mintAndSend(...)], the promise being settled *)
| KDone.

(** What the outside answers to a suspended pass; [None] is a raised
    error (a rejected promise). *)
Inductive Resp :=
| RPage (r : option (list Utxo))
| RInputs (r : option (option TxUtxos)) (rnd : nat)
    (* [rnd] is the value of [Math.floor(Math.random() * designs.length)],
       should the turn that receives the inputs come to draw a design *)
| RIssue (r : option string)
| RTick.

Definition Out : Type := Cont * DB * list Event.

(** Puts what was done before a loop in front of what the loop does. *)
Definition prepend (ev : list Event) (o : Out) : Out :=
  let '(k, db, ev') := o in (k, db, ev ++ ev').

(** The constants of the module and the collaborators it holds. *)
Record Env := {
  (** [PRICE = BigInt(process.env.PRICE_LOVELACE || '1000000')] *)
  PRICE : Z;
  (** [lucid.utils.getAddressDetails]; [None] when it raises. *)
  getAddressDetails : string -> option AddressDetails;
  (** [loadDesigns()], the parsed [designs.json]; [None] when reading or
      parsing it raises. *)
  loadDesigns : option (list Design)
}.

Section Server.

Variable env : Env.

(** [`${u.tx_hash}#${u.output_index}`].  [output_index] is a JavaScript
    number: the decimal numeral is how it is interpolated as long as it is
    a safe integer (below 2^53), which the index of an output of a ledger
    transaction is; above that the numbers of the code are rounded, and
    from 1e21 they are written with an exponent. *)
Definition utxoId (u : Utxo) : string :=
  tx_hash u +:+ "#" +:+ pretty (output_index u).

(** *** The deposit classifier (scanForPayments, "only lovelace,
    exactly PRICE") *)

Definition onlyLovelace (u : Utxo) : bool :=
  (length (amount u) =? 1)%nat
  && match amount u !! 0%nat with
     | Some a => bool_decide (unit a = "lovelace")
     | None => false
     end.

(** [onlyLovelace ? BigInt(u.amount[0].quantity) : 0n] *)
Definition qty (u : Utxo) : option Z :=
  if onlyLovelace u
  then a ← amount u !! 0%nat; JsBigInt.BigInt (quantity a)
  else Some 0.

(** [onlyLovelace && qty === PRICE]; [None] when [BigInt] raised. *)
Definition qualifies (u : Utxo) : option bool :=
  q ← qty u; Some (onlyLovelace u && (q =? PRICE env)).

(** *** Helpers *)

Definition getStakeKeyFromAddr (address : string) : option string :=
  match getAddressDetails env address with
  | Some d => truthy (hash <$> stakeCredential d)
  | None => None                              (* catch { return null; } *)
  end.

(** [designs[i]]; out of range it is [undefined]. *)
Definition pickRandomDesign (designs : list Design) (i : nat)
  : option Design :=
  designs !! i.

(** *** mintAndSend *)

(** From the call to the first [await]. *)
Definition mintAndSend_begin (db : DB) (payerAddress stakeKey paidTx : string)
    (rnd : nat) : MintStart * DB * list Event :=
  let '(db', changes) := Sql.insert_mint db stakeKey payerAddress paidTx in
  let ins := Write (OpClaim stakeKey payerAddress paidTx) in
  if (changes =? 0)%nat
  then (MReturned, db', [ins; Log (LDuplicate stakeKey)])
  else match loadDesigns env with
       | None => (MThrew, db', [ins])
       | Some designs =>
           match pickRandomDesign designs rnd with
           | None => (MThrew, db', [ins])  (* [design.name] of undefined *)
           | Some design =>
               (MAwait design, db',
                [ins; Issue payerAddress stakeKey paidTx design])
           end
       end.

(** From the answer of the ledger to the end. *)
Definition mintAndSend_end (db : DB) (payerAddress paidTx : string)
    (design : Design) (r : option string) : Settled * DB * list Event :=
  match r with
  | None => (Rejected, db, [])
  | Some txHash =>
      (Resolved (Some txHash),
       Sql.update_minted db txHash (name design) paidTx,
       [Write (OpMinted txHash (name design) paidTx);
        Log (LMinted (name design) payerAddress txHash)])
  end.

(** *** scanForPayments *)

(** The loop from the head of the page up to the next [await]. *)
Fixpoint loop (db : DB) (utxos : list Utxo) : Out :=
  match utxos with
  | [] => (KDone, db, [])
  | u :: rest =>
      if Sql.select_seen db (utxoId u) then loop db rest
      else match qualifies u with
           | None => (KDone, db, [Log LScanError])
           | Some false =>
               prepend [Write (OpSeen (utxoId u))]
                       (loop (Sql.insert_seen db (utxoId u)) rest)
           | Some true => (KInputs u rest, db, [FetchTx (tx_hash u)])
           end
  end.

(** From the inputs of [u]'s transaction to the next [await]. *)
Definition afterInputs (u : Utxo) (rest : list Utxo)
    (r : option (option TxUtxos)) (rnd : nat) (db : DB) : Out :=
  match r with
  | None => (KDone, db, [Log LScanError])
  | Some txUtxos =>
      let firstInput := (txUtxos ≫= inputs) ≫= head in
      match truthy (firstInput ≫= address) with
      | None =>
          prepend [Log (LNoPayer (tx_hash u)); Write (OpSeen (utxoId u))]
                  (loop (Sql.insert_seen db (utxoId u)) rest)
      | Some payerAddr =>
          match getStakeKeyFromAddr payerAddr with
          | None =>
              prepend [Log (LNoStake (tx_hash u)); Write (OpSeen (utxoId u))]
                      (loop (Sql.insert_seen db (utxoId u)) rest)
          | Some stakeKey =>
              match Sql.select_stake db stakeKey with
              | Some _ =>
                  prepend [Log (LAlready stakeKey (tx_hash u));
                           Write (OpSeen (utxoId u))]
                          (loop (Sql.insert_seen db (utxoId u)) rest)
              | None =>
                  match mintAndSend_begin db payerAddr stakeKey (tx_hash u)
                                          rnd with
                  | (MReturned, db', ev) =>
                      (KMintDone u (Resolved None) rest, db', ev)
                  | (MThrew, db', ev) =>
                      (KMintDone u Rejected rest, db', ev)
                  | (MAwait design, db', ev) =>
                      (KIssue u payerAddr stakeKey design rest, db', ev)
                  end
              end
          end
      end
  end.

(** From the settled promise of [mintAndSend] to the next [await]. *)
Definition afterMint (u : Utxo) (r : Settled) (rest : list Utxo) (db : DB)
  : Out :=
  match r with
  | Resolved mintedTx =>
      prepend (Write (OpSeen (utxoId u))
               :: match truthy mintedTx with
                  | Some h => [Log (LProcessed (tx_hash u) h)]
                  | None => []
                  end)
              (loop (Sql.insert_seen db (utxoId u)) rest)
  | Rejected =>
      prepend [Log (LMintFailed (tx_hash u))] (loop db rest)
  end.

(** One turn of a pass.  An answer that is not the one awaited is not
    delivered: the pass stays where it is. *)
Definition resume (k : Cont) (a : Resp) (db : DB) : Out :=
  match k, a with
  | KPage, RPage None => (KDone, db, [Log LScanError])
  | KPage, RPage (Some utxos) => loop db utxos
  | KInputs u rest, RInputs r rnd => afterInputs u rest r rnd db
  | KIssue u payerAddr stakeKey design rest, RIssue r =>
      let '(s, db', ev) :=
        mintAndSend_end db payerAddr (tx_hash u) design r in
      (KMintDone u s rest, db', ev)
  | KMintDone u r rest, RTick => afterMint u r rest db
  | _, _ => (k, db, [])
  end.

(** A pass driven by a script of answers. *)
Fixpoint run (k : Cont) (db : DB) (script : list Resp) : Out :=
  match script with
  | [] => (k, db, [])
  | a :: script' =>
      let '(k', db', ev) := resume k a db in
      prepend ev (run k' db' script')
  end.

(** [scanForPayments()]: a pass from its start. *)
Definition scanForPayments (db : DB) (script : list Resp) : Out :=
  prepend [FetchPage] (run KPage db script).

(** *** The process: every pass shares the store

    [setInterval(scanForPayments, POLL_MS)] starts a pass whether or not
    the earlier ones have finished.  A restart of the process loses the
    passes in flight and keeps [mint.sqlite]. *)
Record Sys := {
  store : DB;
  tasks : list Cont;
  trace : list Event
}.

Inductive Action :=
| Spawn                          (* the timer fires *)
| Deliver (i : nat) (a : Resp)   (* pass [i] receives an answer *)
| Restart.

Definition boot : Sys := {| store := empty_db; tasks := []; trace := [] |}.

Definition act (s : Sys) (x : Action) : Sys :=
  match x with
  | Spawn =>
      {| store := store s;
         tasks := tasks s ++ [KPage];
         trace := trace s ++ [FetchPage] |}
  | Deliver i a =>
      match tasks s !! i with
      | Some k =>
          let '(k', db', ev) := resume k a (store s) in
          {| store := db';
             tasks := <[i:=k']> (tasks s);
             trace := trace s ++ ev |}
      | None => s
      end
  | Restart =>
      {| store := store s; tasks := []; trace := trace s |}
  end.

Definition exec_from (s : Sys) (sched : list Action) : Sys :=
  fold_left act sched s.

Definition exec (sched : list Action) : Sys := exec_from boot sched.

End Server.

(** ** Counting rows and mints *)

Definition rows_for (stakeKey : string) (db : DB) : nat :=
  length (filter (fun r => stake_key r = stakeKey) (mints db)).

Definition issue_for (stakeKey : string) (e : Event) : bool :=
  match e with
  | Issue _ k _ _ => bool_decide (k = stakeKey)
  | _ => false
  end.

Definition issued_for (stakeKey : string) (tr : list Event) : nat :=
  length (filter (fun e => issue_for stakeKey e = true) tr).

(** The design that a turn draws, if it comes to draw one. *)
Definition drawn (env : Env) (rnd : nat) : option Design :=
  designs ← loadDesigns env; pickRandomDesign designs rnd.

(** A row once [UPDATE mints SET minted_tx=?, asset_name=?] has reached it. *)
Definition minted_row (stakeKey payerAddress paidTx txHash assetName : string)
  : MintRow :=
  {| stake_key := stakeKey;
     payer_address := payerAddress;
     paid_tx := paidTx;
     minted_tx := Some txHash;
     asset_name := Some assetName |}.

(** [GET /api/status/:stake] *)
Inductive Status :=
| StNone
| StPaid (paid_tx : string)
| StMinted (minted_tx : string) (asset : option string).

Definition status (db : DB) (stake : string) : Status :=
  match Sql.select_stake db stake with
  | None => StNone
  | Some row =>
      match truthy (minted_tx row) with
      | None => StPaid (paid_tx row)
      | Some h => StMinted h (asset_name row)
      end
  end.

(** ** The writes of the server, one statement at a time

    Whatever the passes and their interleaving, the store goes through the
    sequence of the statements that the passes run on it. *)
Fixpoint writes (tr : list Event) : list Op :=
  match tr with
  | [] => []
  | Write o :: tr' => o :: writes tr'
  | _ :: tr' => writes tr'
  end.

(** The store after a statement. *)
Definition apply_op (db : DB) (o : Op) : DB :=
  match o with
  | OpClaim k p t => (Sql.insert_mint db k p t).1
  | OpMinted h n t => Sql.update_minted db h n t
  | OpSeen id => Sql.insert_seen db id
  end.

(** The number of claims for [stakeKey] in [ops] that insert their row
    ([res.changes] added up). *)
Fixpoint inserted_for (stakeKey : string) (db : DB) (ops : list Op) : nat :=
  match ops with
  | [] => 0%nat
  | o :: ops' =>
      (match o with
       | OpClaim k p t =>
           if decide (k = stakeKey) then (Sql.insert_mint db k p t).2 else 0
       | _ => 0
       end
       + inserted_for stakeKey (apply_op db o) ops')%nat
  end.

(** The transaction ids of the claims for [stakeKey], and of the claims
    for the other stake keys. *)
Fixpoint own_txs (stakeKey : string) (ops : list Op) : list string :=
  match ops with
  | [] => []
  | OpClaim k _ t :: ops' =>
      if decide (k = stakeKey) then t :: own_txs stakeKey ops'
      else own_txs stakeKey ops'
  | _ :: ops' => own_txs stakeKey ops'
  end.

Fixpoint foreign_txs (stakeKey : string) (ops : list Op) : list string :=
  match ops with
  | [] => []
  | OpClaim k _ t :: ops' =>
      if decide (k = stakeKey) then foreign_txs stakeKey ops'
      else t :: foreign_txs stakeKey ops'
  | _ :: ops' => foreign_txs stakeKey ops'
  end.

(** ** The words of the properties *)

Definition stake_keys (db : DB) : list string := stake_key <$> mints db.
Definition paid_txs (db : DB) : list string := paid_tx <$> mints db.

(** Both UNIQUE columns and the primary key hold. *)
Definition db_ok (db : DB) : Prop :=
  NoDup (stake_keys db) /\ NoDup (paid_txs db) /\ NoDup (seen_utxos db).

(** The tables only grow: rows are appended, keys are never rewritten. *)
Definition grows (db db' : DB) : Prop :=
  stake_keys db `prefix_of` stake_keys db'
  /\ paid_txs db `prefix_of` paid_txs db'
  /\ seen_utxos db `prefix_of` seen_utxos db'.

(** A turn from [db]: the constraints are kept, the tables only grow, and
    every mint transaction built in the turn has its own new row. *)
Definition good (db : DB) (o : Out) : Prop :=
  (db_ok db -> db_ok o.1.2)
  /\ grows db o.1.2
  /\ forall k, (issued_for k o.2 + rows_for k db <= rows_for k o.1.2)%nat.

(** The store of a process is well formed and every mint transaction that
    was built has its row. *)
Definition sys_ok (s : Sys) : Prop :=
  db_ok (store s)
  /\ forall k, (issued_for k (trace s) <= rows_for k (store s))%nat.

(** A turn that does no more than mark [id] seen before it goes on with
    the page: no row is written and no mint transaction is built. *)
Definition marks_only (db : DB) (id : string) (o : Out) : Prop :=
  id ∈ seen_utxos o.1.2
  /\ mints o.1.2 = mints db
  /\ forall k, issued_for k o.2 = 0%nat.

(** A turn has written what its events say. *)
Definition written (db : DB) (o : Out) : Prop :=
  o.1.2 = foldl apply_op db (writes o.2).

(** ** A small world for the examples *)

Definition design_A : Design :=
  {| name := "Design_A"; cid := "QmA"; mediaType := None |}.

(** Two base addresses with a stake credential each, an enterprise address
    without one; anything else does not parse. *)
Definition sample_details (a : string) : option AddressDetails :=
  if decide (a = "addr1")
  then Some {| stakeCredential := Some {| hash := "stake1" |} |}
  else if decide (a = "addr2")
  then Some {| stakeCredential := Some {| hash := "stake2" |} |}
  else if decide (a = "enterprise")
  then Some {| stakeCredential := None |}
  else None.

Definition sample_env : Env :=
  {| PRICE := 1000000;
     getAddressDetails := sample_details;
     loadDesigns := Some [design_A] |}.

(** A deposit of exactly one ADA, and one of two ADA. *)
Definition paid (tx : string) (i : N) : Utxo :=
  {| tx_hash := tx; output_index := i;
     amount := [{| unit := "lovelace"; quantity := "1000000" |}] |}.

Definition overpaid (tx : string) (i : N) : Utxo :=
  {| tx_hash := tx; output_index := i;
     amount := [{| unit := "lovelace"; quantity := "2000000" |}] |}.

(** The transaction's first input comes from address [a]. *)
Definition inputs_from (a : string) : option (option TxUtxos) :=
  Some (Some {| inputs := Some [{| address := Some a |}] |}).

(** One pass over a page of two deposits, the second of which pays the
    price from [addr1] and is minted. *)
Definition sample_sched : list Action :=
  [Spawn;
   Deliver 0 (RPage (Some [overpaid "T0" 0; paid "T1" 0]));
   Deliver 0 (RInputs (inputs_from "addr1") 0);
   Deliver 0 (RIssue (Some "M1"));
   Deliver 0 RTick].

(** The same server when [designs.json] cannot be read. *)
Definition no_designs_env : Env :=
  {| PRICE := 1000000;
     getAddressDetails := sample_details;
     loadDesigns := None |}.

(** ** The rest of the watcher and of the API *)

(** [designs.json] as far as it could be read. *)
Definition catalog (env : Env) : list Design := default [] (loadDesigns env).

(** The deposits of the pages that the passes of a schedule have received:
    a page counts when it is answered to a pass that awaits it. *)
Fixpoint shown (env : Env) (s : Sys) (sched : list Action) : list Utxo :=
  match sched with
  | [] => []
  | x :: sched' =>
      match x with
      | Deliver i (RPage (Some page)) =>
          match tasks s !! i with
          | Some KPage => page
          | _ => []
          end
      | _ => []
      end ++ shown env (act env s x) sched'
  end.

(** [t] is the transaction of a deposit of [P] that the classifier lets
    through. *)
Definition well_paid (env : Env) (P : list Utxo) (t : string) : Prop :=
  exists u, u ∈ P /\ tx_hash u = t /\ qualifies env u = Some true.

(** [k] is the stake key that [getStakeKeyFromAddr] reads off [p]. *)
Definition payer_ok (env : Env) (p k : string) : Prop :=
  p <> "" /\ getStakeKeyFromAddr env p = Some k.

Definition row_ok (env : Env) (P : list Utxo) (r : MintRow) : Prop :=
  well_paid env P (paid_tx r)
  /\ payer_ok env (payer_address r) (stake_key r)
  /\ (minted_tx r = None <-> asset_name r = None)
  /\ forall n, asset_name r = Some n -> n ∈ (name <$> catalog env).

Definition event_ok (env : Env) (P : list Utxo) (e : Event) : Prop :=
  match e with
  | Issue p k t d => well_paid env P t /\ payer_ok env p k /\ d ∈ catalog env
  | _ => True
  end.

Definition task_ok (env : Env) (P : list Utxo) (k : Cont) : Prop :=
  match k with
  | KInputs u rest =>
      u ∈ P /\ qualifies env u = Some true /\ rest ⊆ P
  | KIssue u p s d rest =>
      u ∈ P /\ qualifies env u = Some true /\ rest ⊆ P
      /\ payer_ok env p s /\ d ∈ catalog env
  | KMintDone u r rest => u ∈ P /\ rest ⊆ P
  | KPage | KDone => True
  end.

Definition seen_ok (P : list Utxo) (db : DB) : Prop :=
  forall id, id ∈ seen_utxos db -> exists u, u ∈ P /\ utxoId u = id.

(** The store and the continuation that a turn leaves, and what it did. *)
Definition turn_ok (env : Env) (P : list Utxo) (o : Out) : Prop :=
  task_ok env P o.1.1
  /\ Forall (row_ok env P) (mints o.1.2)
  /\ Forall (event_ok env P) o.2
  /\ seen_ok P o.1.2.

(** Everything in the process comes from the deposits [P]. *)
Definition provenance (env : Env) (P : list Utxo) (s : Sys) : Prop :=
  Forall (task_ok env P) (tasks s)
  /\ Forall (row_ok env P) (mints (store s))
  /\ Forall (event_ok env P) (trace s)
  /\ seen_ok P (store s).

(** *** Counting what a pass asks and how far it is *)

Definition is_fetch (e : Event) : bool :=
  match e with FetchTx _ => true | _ => false end.

Definition is_issue (e : Event) : bool :=
  match e with Issue _ _ _ _ => true | _ => false end.

Definition fetches (tr : list Event) : nat :=
  length (filter (fun e => is_fetch e = true) tr).

Definition issues (tr : list Event) : nat :=
  length (filter (fun e => is_issue e = true) tr).

(** The answers that a pass still needs at most. *)
Definition todo (k : Cont) : nat :=
  match k with
  | KPage | KDone => 0
  | KInputs _ rest => 3 * length rest + 3
  | KIssue _ _ _ _ rest => 3 * length rest + 2
  | KMintDone _ _ rest => 3 * length rest + 1
  end.

(** The answer is the one that the pass awaits. *)
Definition accepts (k : Cont) (a : Resp) : bool :=
  match k, a with
  | KPage, RPage _ => true
  | KInputs _ _, RInputs _ _ => true
  | KIssue _ _ _ _ _, RIssue _ => true
  | KMintDone _ _ _, RTick => true
  | _, _ => false
  end.

(** The answers of a script that the pass takes. *)
Fixpoint consumed (env : Env) (k : Cont) (db : DB) (script : list Resp) : nat :=
  match script with
  | [] => 0
  | a :: script' =>
      ((if accepts k a then 1 else 0)
       + consumed env (resume env k a db).1.1 (resume env k a db).1.2 script')%nat
  end.

(** The deposits that a pass has in hand: the one it is at and the ones
    after it in the page. *)
Definition in_hand (k : Cont) : list Utxo :=
  match k with
  | KInputs u rest | KIssue u _ _ _ rest | KMintDone u _ rest => u :: rest
  | KPage | KDone => []
  end.

(** The number of deposits after the one that the pass is at, and whether
    the pass awaits the inputs of a transaction. *)
Definition after (k : Cont) : nat := length (tail (in_hand k)).

Definition at_inputs (k : Cont) : nat :=
  match k with KInputs _ _ => 1 | _ => 0 end.

(** A console line of a [catch]. *)
Definition is_error (e : Event) : bool :=
  match e with
  | Log LScanError | Log (LMintFailed _) => true
  | _ => false
  end.

(** *** Counting the UPDATEs of a transaction *)

Definition issuing (t : string) (k : Cont) : bool :=
  match k with
  | KIssue u _ _ _ _ => bool_decide (tx_hash u = t)
  | _ => false
  end.

Definition issuing_count (t : string) (ks : list Cont) : nat :=
  length (filter (fun k => issuing t k = true) ks).

Definition is_minted_write (t : string) (o : Op) : bool :=
  match o with
  | OpMinted _ _ t' => bool_decide (t' = t)
  | _ => false
  end.

Definition minted_writes (t : string) (ops : list Op) : nat :=
  length (filter (fun o => is_minted_write t o = true) ops).

Definition rows_paid (t : string) (db : DB) : nat :=
  length (filter (fun r => paid_tx r = t) (mints db)).

(** A turn that writes no row, fulfils none and leaves no mint in
    flight. *)
Definition quiet (db : DB) (o : Out) : Prop :=
  mints o.1.2 = mints db
  /\ (forall t, issuing t o.1.1 = false)
  /\ (forall t, minted_writes t (writes o.2) = 0%nat).

(** The mints in flight and the UPDATEs that ran are covered by rows, and
    a fulfilled row has had its UPDATE. *)
Definition fulfil_ok (s : Sys) : Prop :=
  (forall t, (issuing_count t (tasks s) + minted_writes t (writes (trace s))
              <= rows_paid t (store s))%nat)
  /\ forall r, r ∈ mints (store s) -> minted_tx r <> None ->
                (1 <= minted_writes (paid_tx r) (writes (trace s)))%nat.

(** No pass is about to fulfil the row. *)
Definition settled (r : MintRow) (ks : list Cont) : Prop :=
  Forall (fun k => issuing (paid_tx r) k = false) ks.

(** A process that is restarted while the mint for [T1] is in flight,
    and a pass of the new process over the same page. *)
Definition crash_sched : list Action :=
  [Spawn;
   Deliver 0 (RPage (Some [paid "T1" 0]));
   Deliver 0 (RInputs (inputs_from "addr1") 0)].

Definition retry_sched : list Action :=
  [Spawn;
   Deliver 0 (RPage (Some [paid "T1" 0]));
   Deliver 0 (RInputs (inputs_from "addr1") 0)].

(** *** The deposit that a pass is at *)

(** [Number.isSafeInteger(u.output_index)] *)
Definition safe_index (u : Utxo) : Prop := (output_index u < 2 ^ 53)%N.

(** The deposit that a pass is at once it is past the seen test and the
    classifier: the one whose inputs it has asked for, for which it claims
    and mints. *)
Definition holding (k : Cont) : option Utxo :=
  match k with
  | KInputs u _ | KIssue u _ _ _ _ | KMintDone u _ _ => Some u
  | KPage | KDone => None
  end.

(** Every pass is at a deposit that the classifier accepted. *)
Definition held_qualify (env : Env) (ks : list Cont) : Prop :=
  Forall (fun k => forall u, holding k = Some u ->
                             qualifies env u = Some true) ks.

(** No pass is at a deposit with the key [id]. *)
Definition unheld (id : string) (ks : list Cont) : Prop :=
  Forall (fun k => forall u, holding k = Some u -> utxoId u <> id) ks.

(** What a pass has done with a deposit of its page: the deposit is in
    [seen_utxos] (skipped as seen, turned down, already minted for, or
    claimed and settled), or the failure of its own mint was logged. *)
Definition examined (o : Out) (u : Utxo) : Prop :=
  utxoId u ∈ seen_utxos o.1.2 \/ Log (LMintFailed (tx_hash u)) ∈ o.2.

(** A deposit of lovelace only whose quantity is not an integer numeral. *)
Definition unreadable (tx : string) (i : N) : Utxo :=
  {| tx_hash := tx; output_index := i;
     amount := [{| unit := "lovelace"; quantity := "1.5" |}] |}.

(** Two passes over the same page.  The first is told that [T1] has no
    first input and marks the deposit seen; the second, which is past the
    seen test by then, is told that [T1] comes from [addr1]. *)
Definition overlap_sched : list Action :=
  [Spawn; Spawn;
   Deliver 0 (RPage (Some [paid "T1" 0]));
   Deliver 1 (RPage (Some [paid "T1" 0]));
   Deliver 0 (RInputs (Some (Some {| inputs := Some [] |})) 0);
   Deliver 1 (RInputs (inputs_from "addr1") 0);
   Deliver 1 (RIssue (Some "M1"));
   Deliver 1 RTick].

(** A page of three deposits, and the answers to a pass in which the mint
    for the first fails and the second is minted. *)
Definition page3 : list Utxo :=
  [paid "T1" 0; paid "T2" 0; overpaid "T3" 0].

Definition script3 : list Resp :=
  [RInputs (inputs_from "addr1") 0; RIssue None; RTick;
   RInputs (inputs_from "addr2") 0; RIssue (Some "M2"); RTick].

(** *** The configuration and [GET /api/info] *)

(** [v || d] on an environment variable. *)
Definition or_default (v : option string) (d : string) : string :=
  match truthy v with
  | Some s => s
  | None => d
  end.

(** [BigInt(process.env.PRICE_LOVELACE || '1000000')]; [None] when the
    module fails to load on a SyntaxError. *)
Definition parse_PRICE (PRICE_LOVELACE : option string) : option Z :=
  JsBigInt.BigInt (or_default PRICE_LOVELACE "1000000").

Record Info := {
  network : string;
  price_lovelace : string;
  mint_address : string;
  policy_id : string
}.

(** [res.json({ network: NETWORK, price_lovelace: PRICE.toString(),
    mint_address: serverAddress, policy_id: policyId })] *)
Definition api_info (env : Env) (NETWORK serverAddress policyId : string)
  : Info :=
  {| network := NETWORK;
     price_lovelace := pretty (PRICE env);
     mint_address := serverAddress;
     policy_id := policyId |}.

(** * Properties *)

Example BigInt_samples :
  JsBigInt.BigInt "1000000" = Some 1000000
  /\ JsBigInt.BigInt " 42 " = Some 42
  /\ JsBigInt.BigInt "" = Some 0
  /\ JsBigInt.BigInt "-7" = Some (-7)
  /\ JsBigInt.BigInt "0x1F" = Some 31
  /\ JsBigInt.BigInt "007" = Some 7
  /\ JsBigInt.BigInt "1.5" = None
  /\ JsBigInt.BigInt "1 2" = None
  /\ JsBigInt.BigInt "-0x10" = None
  /\ JsBigInt.BigInt "0x" = None
  /\ JsBigInt.BigInt "+" = None.
Proof. repeat split; reflexivity. Qed.

(** ** [BigInt] reads back the decimal rendering of an integer *)
Module JsBigIntFacts.
Import JsBigInt.

Ltac ten_cases d H :=
  let E := fresh "E" in
  assert (d = 0 \/ d = 1 \/ d = 2 \/ d = 3 \/ d = 4 \/ d = 5 \/ d = 6
          \/ d = 7 \/ d = 8 \/ d = 9)%N as E by lia;
  clear H;
  destruct E as [->|[->|[->|[->|[->|[->|[->|[->|[->| ->]]]]]]]]].

Lemma digit_pretty_N_char (d : N) :
  (d < 10)%N -> digit 10 (pretty_N_char d) = Some (Z.of_N d).
Proof. intros H. ten_cases d H; reflexivity. Qed.

Lemma number_pretty_N_go (x : N) :
  forall s, (0 < x)%N ->
    number 10 (pretty_N_go x s) = digits 10 s (Z.of_N x).
Proof.
  induction (N.lt_wf_0 x) as [x _ IH]. intros s Hx.
  rewrite pretty_N_go_step by done.
  assert (Hm : (x `mod` 10 < 10)%N) by (apply N.mod_lt; lia).
  assert (Hx10 : Z.of_N x = Z.of_N (x `div` 10) * 10 + Z.of_N (x `mod` 10)).
  { rewrite (N.div_mod x 10) at 1 by lia. lia. }
  destruct (decide (x `div` 10 = 0)%N) as [Hz|Hnz].
  - rewrite Hz, pretty_N_go_0. simpl.
    rewrite digit_pretty_N_char by done.
    rewrite Hx10, Hz. simpl. reflexivity.
  - rewrite IH; [|apply N.div_lt; lia|lia].
    simpl. rewrite digit_pretty_N_char by done.
    rewrite Hx10. reflexivity.
Qed.

Lemma all_dec_pretty_N_go (x : N) :
  forall s, all_dec s -> all_dec (pretty_N_go x s).
Proof.
  induction (N.lt_wf_0 x) as [x _ IH]. intros s Hs.
  destruct (decide (x = 0)%N) as [->|Hnz]; [by rewrite pretty_N_go_0|].
  rewrite pretty_N_go_step by lia.
  apply IH; [apply N.div_lt; lia|].
  split; [|done]. exists (x `mod` 10)%N. split; [|done].
  apply N.mod_lt. lia.
Qed.

Lemma BigInt_all_dec (t : string) :
  all_dec t -> t <> EmptyString -> BigInt t = number 10 t.
Proof.
  intros Ht Hne. destruct t as [|c1 r]; [done|].
  destruct Ht as [(d1 & H1 & ->) Hr].
  destruct r as [|c2 r].
  { ten_cases d1 H1; reflexivity. }
  destruct Hr as [(d2 & H2 & ->) _].
  destruct r as [|c3 r]; ten_cases d1 H1; ten_cases d2 H2; reflexivity.
Qed.

Lemma BigInt_minus_all_dec (t : string) :
  all_dec t -> t <> EmptyString ->
  BigInt (String "-" t) = Z.opp <$> number 10 t.
Proof.
  intros Ht Hne. destruct t as [|c1 r]; [done|].
  destruct Ht as [(d1 & H1 & ->) Hr].
  destruct r as [|c2 r]; ten_cases d1 H1; reflexivity.
Qed.

Lemma pretty_pos_spec (p : positive) :
  all_dec (pretty_N_go (Npos p) "")
  /\ number 10 (pretty_N_go (Npos p) "") = Some (Zpos p).
Proof.
  split; [by apply all_dec_pretty_N_go|].
  by rewrite number_pretty_N_go by lia.
Qed.

(** [BigInt(String(z)) === z] *)
Lemma BigInt_pretty (z : Z) : BigInt (pretty z) = Some z.
Proof.
  destruct z as [|p|p]; [reflexivity|..];
    destruct (pretty_pos_spec p) as [Hd Hn];
    assert (Hne : pretty_N_go (Npos p) "" <> EmptyString)
      by (intros E; rewrite E in Hn; discriminate).
  - change (pretty (Zpos p)) with (pretty_N_go (Npos p) "").
    by rewrite BigInt_all_dec.
  - change (pretty (Zneg p)) with (String "-" (pretty_N_go (Npos p) "")).
    rewrite BigInt_minus_all_dec by done. by rewrite Hn.
Qed.

End JsBigIntFacts.

(** ** The deposit classifier *)
Section Classifier.
Variable env : Env.

Let pay (tx : string) (i : N) (am : list Amount) : Utxo :=
  {| tx_hash := tx; output_index := i; amount := am |}.
Let lovelace (q : string) : Amount :=
  {| unit := "lovelace"; quantity := q |}.

Lemma onlyLovelace_spec (u : Utxo) :
  onlyLovelace u = true <->
  exists q, amount u = [{| unit := "lovelace"; quantity := q |}].
Proof.
  unfold onlyLovelace. destruct (amount u) as [|[un q] [|b r]]; simpl.
  - split; [done|]. by intros [q ?].
  - rewrite bool_decide_eq_true. split.
    + intros ->. by exists q.
    + by intros [q' [= -> _]].
  - split; [done|]. by intros [q' ?].
Qed.

Lemma qualifies_true (u : Utxo) :
  qualifies env u = Some true <->
  exists q, amount u = [{| unit := "lovelace"; quantity := q |}]
            /\ JsBigInt.BigInt q = Some (PRICE env).
Proof.
  unfold qualifies, qty. split.
  - destruct (onlyLovelace u) eqn:Hol; simpl.
    + apply onlyLovelace_spec in Hol as [q Hq]. rewrite Hq. simpl.
      destruct (JsBigInt.BigInt q) as [z|] eqn:Hz; simpl; [|done].
      intros [= Hp%Z.eqb_eq]. exists q. by subst.
    + done.
  - intros (q & Hq & Hz).
    assert (Hol : onlyLovelace u = true) by (apply onlyLovelace_spec; eauto).
    rewrite Hol, Hq. simpl. rewrite Hz. simpl. by rewrite Z.eqb_refl.
Qed.

(** C2.  A deposit qualifies exactly when its amount is one entry, of
    unit lovelace, whose quantity read by [BigInt] is PRICE; the answer
    depends on the amount alone.  The amount [PRICE] alone qualifies; a
    second entry, or any other quantity, does not. *)
Theorem classifier_exact (u : Utxo) :
  (qualifies env u = Some true <->
   exists q, amount u = [{| unit := "lovelace"; quantity := q |}]
             /\ JsBigInt.BigInt q = Some (PRICE env))
  /\ (forall u', amount u' = amount u ->
                 qualifies env u' = qualifies env u)
  /\ (forall tx i,
        qualifies env (pay tx i [lovelace (pretty (PRICE env))]) = Some true)
  /\ (forall tx i other,
        qualifies env (pay tx i [lovelace (pretty (PRICE env)); other])
        = Some false)
  /\ (forall tx i z, z <> PRICE env ->
        qualifies env (pay tx i [lovelace (pretty z)]) = Some false).
Proof.
  split; [apply qualifies_true|]. split; [|split; [|split]].
  - intros u' E. unfold qualifies, qty, onlyLovelace. by rewrite E.
  - intros tx i. apply qualifies_true. exists (pretty (PRICE env)).
    split; [done|]. apply JsBigIntFacts.BigInt_pretty.
  - done.
  - intros tx i z Hz. unfold qualifies, qty. simpl.
    rewrite JsBigIntFacts.BigInt_pretty. simpl.
    by destruct (Z.eqb_spec z (PRICE env)).
Qed.

End Classifier.

(** At the default price of one ADA. *)
Lemma classifier_exact_witness :
  qualifies sample_env
    {| tx_hash := "T1"; output_index := 0;
       amount := [{| unit := "lovelace"; quantity := "1000000" |}] |}
  = Some true
  /\ qualifies sample_env
       {| tx_hash := "T1"; output_index := 0;
          amount := [{| unit := "lovelace"; quantity := "1000000" |};
                     {| unit := "token-X"; quantity := "1" |}] |}
     = Some false
  /\ qualifies sample_env
       {| tx_hash := "T1"; output_index := 0;
          amount := [{| unit := "lovelace"; quantity := "999999" |}] |}
     = Some false.
Proof.
  pose proof (classifier_exact sample_env
    {| tx_hash := "T1"; output_index := 0; amount := [] |})
    as (_ & _ & H1 & H2 & H3).
  split; [exact (H1 "T1" 0%N)|]. split.
  - exact (H2 "T1" 0%N {| unit := "token-X"; quantity := "1" |}).
  - apply (H3 "T1" 0%N 999999). simpl. lia.
Defined.

(** ** The store *)



Module SqlFacts.
Import Sql.

#[global] Instance grows_preorder : PreOrder grows.
Proof.
  split.
  - by intros db.
  - intros a b c (?&?&?) (?&?&?). repeat split; by etrans.
Qed.

Lemma select_seen_true db id : select_seen db id = true <-> id ∈ seen_utxos db.
Proof. unfold select_seen. by rewrite bool_decide_eq_true. Qed.

Lemma select_seen_false db id :
  select_seen db id = false <-> id ∉ seen_utxos db.
Proof. unfold select_seen. by rewrite bool_decide_eq_false. Qed.

Lemma insert_seen_mints db id : mints (insert_seen db id) = mints db.
Proof. unfold insert_seen. by destruct (select_seen db id). Qed.

Lemma insert_seen_elem db id : id ∈ seen_utxos (insert_seen db id).
Proof.
  unfold insert_seen. destruct (select_seen db id) eqn:E.
  - by apply select_seen_true.
  - simpl. apply elem_of_app. right. by apply list_elem_of_singleton.
Qed.

Lemma insert_seen_grows db id : grows db (insert_seen db id).
Proof.
  unfold insert_seen. destruct (select_seen db id); [done|].
  repeat split; unfold stake_keys, paid_txs; simpl; try done.
  by apply prefix_app_r.
Qed.

Lemma insert_seen_ok db id : db_ok db -> db_ok (insert_seen db id).
Proof.
  intros (?&?&Hs). unfold insert_seen.
  destruct (select_seen db id) eqn:E; [done|].
  apply select_seen_false in E. repeat split; simpl; try done.
  apply NoDup_app. split; [done|]. split; [|apply NoDup_singleton].
  intros x Hx Hx'%list_elem_of_singleton. by subst.
Qed.

(** A seen identifier: the insert changes nothing. *)
Lemma insert_seen_again db id :
  id ∈ seen_utxos db -> insert_seen db id = db.
Proof. intros H%select_seen_true. unfold insert_seen. by rewrite H. Qed.

Lemma existsb_conflicts_false k t (l : list MintRow) :
  existsb (conflicts k t) l = false <->
  (k ∉ (stake_key <$> l)) /\ (t ∉ (paid_tx <$> l)).
Proof.
  induction l as [|r l IH]; simpl.
  - split; [|done]. intros _. split; apply not_elem_of_nil.
  - rewrite orb_false_iff, IH. unfold conflicts.
    rewrite orb_false_iff, !bool_decide_eq_false, !not_elem_of_cons.
    intuition congruence.
Qed.

Lemma select_stake_None db k :
  select_stake db k = None <-> k ∉ stake_keys db.
Proof.
  unfold select_stake, stake_keys. induction (mints db) as [|r l IH]; simpl.
  - split; [intros _; apply not_elem_of_nil|done].
  - rewrite filter_cons. rewrite not_elem_of_cons.
    destruct (decide (stake_key r = k)) as [E|E]; simpl.
    + split; [done|]. intros [? _]. by subst.
    + rewrite IH. intuition congruence.
Qed.

Lemma select_stake_Some db k :
  is_Some (select_stake db k) <-> k ∈ stake_keys db.
Proof.
  rewrite <-not_eq_None_Some, select_stake_None.
  split; [apply dec_stable|naive_solver].
Qed.

(** The INSERT OR IGNORE inserts exactly when neither UNIQUE column
    has the new value. *)
Lemma insert_mint_spec db k p t :
  ((k ∉ stake_keys db) /\ (t ∉ paid_txs db)
   /\ insert_mint db k p t = (with_row db (pending_row k p t), 1%nat))
  \/ (((k ∈ stake_keys db) \/ (t ∈ paid_txs db))
      /\ insert_mint db k p t = (db, 0%nat)).
Proof.
  unfold insert_mint, stake_keys, paid_txs.
  destruct (existsb (conflicts k t) (mints db)) eqn:E.
  - right. split; [|done].
    destruct (decide (k ∈ (stake_key <$> mints db))) as [|Hk]; [by left|].
    destruct (decide (t ∈ (paid_tx <$> mints db))) as [|Ht]; [by right|].
    assert (existsb (conflicts k t) (mints db) = false)
      by (by apply existsb_conflicts_false).
    congruence.
  - left. apply existsb_conflicts_false in E as [??]. done.
Qed.

Lemma set_minted_stake_key h n t r : stake_key (set_minted h n t r) = stake_key r.
Proof. unfold set_minted. by case_decide. Qed.

Lemma set_minted_paid_tx h n t r : paid_tx (set_minted h n t r) = paid_tx r.
Proof. unfold set_minted. by case_decide. Qed.

Lemma update_minted_stake_keys db h n t :
  stake_keys (update_minted db h n t) = stake_keys db.
Proof.
  unfold stake_keys. simpl. rewrite <-list_fmap_compose. apply list_fmap_ext.
  intros ? r _. apply set_minted_stake_key.
Qed.

Lemma update_minted_paid_txs db h n t :
  paid_txs (update_minted db h n t) = paid_txs db.
Proof.
  unfold paid_txs. simpl. rewrite <-list_fmap_compose. apply list_fmap_ext.
  intros ? r _. apply set_minted_paid_tx.
Qed.

Lemma update_minted_grows db h n t : grows db (update_minted db h n t).
Proof.
  unfold grows.
  by rewrite update_minted_stake_keys, update_minted_paid_txs.
Qed.

Lemma update_minted_ok db h n t : db_ok db -> db_ok (update_minted db h n t).
Proof.
  unfold db_ok.
  by rewrite update_minted_stake_keys, update_minted_paid_txs.
Qed.

(** Applied to a row that is already set, [set_minted] does nothing. *)
Lemma set_minted_idem h n t r :
  set_minted h n t (set_minted h n t r) = set_minted h n t r.
Proof.
  unfold set_minted. repeat case_decide; simpl in *; congruence.
Qed.

End SqlFacts.

(** ** Counting *)
Module CountFacts.

Lemma filter_none {A} (P : A -> Prop) `{forall x, Decision (P x)} (l : list A) :
  (forall x, x ∈ l -> ~ P x) -> filter P l = [].
Proof.
  induction l as [|a l IH]; [done|]. intros Hl.
  rewrite filter_cons_False by (apply Hl; left).
  apply IH. intros x Hx. apply Hl. by right.
Qed.

Lemma filter_key_le_1 (f : MintRow -> string) (k : string) (l : list MintRow) :
  NoDup (f <$> l) -> (length (filter (fun r => f r = k) l) <= 1)%nat.
Proof.
  induction l as [|r l IH]; simpl; [lia|].
  intros [Hr Hl]%NoDup_cons. rewrite filter_cons.
  destruct (decide (f r = k)) as [E|E]; simpl; [|by apply IH].
  assert (filter (fun r => f r = k) l = []) as ->; [|simpl; lia].
  apply filter_none. intros x Hx Hfx.
  apply Hr. rewrite E, <-Hfx. by apply list_elem_of_fmap_2.
Qed.

Lemma rows_for_le_1 k db : db_ok db -> (rows_for k db <= 1)%nat.
Proof. intros (H&_&_). by apply filter_key_le_1. Qed.

Lemma rows_for_insert_seen k db id :
  rows_for k (Sql.insert_seen db id) = rows_for k db.
Proof. unfold rows_for. by rewrite SqlFacts.insert_seen_mints. Qed.

Lemma rows_for_update_minted k db h n t :
  rows_for k (Sql.update_minted db h n t) = rows_for k db.
Proof.
  unfold rows_for. simpl. induction (mints db) as [|r l IH]; [done|].
  rewrite fmap_cons, !filter_cons, SqlFacts.set_minted_stake_key.
  case_decide; simpl; by rewrite IH.
Qed.

Lemma rows_for_append k (ms : list MintRow) (r : MintRow) (seen : list string) :
  rows_for k {| mints := ms ++ [r]; seen_utxos := seen |}
  = (rows_for k {| mints := ms; seen_utxos := seen |}
     + if decide (stake_key r = k) then 1 else 0)%nat.
Proof.
  unfold rows_for. simpl. rewrite filter_app, length_app.
  rewrite filter_cons, filter_nil. by case_decide.
Qed.

Lemma rows_for_zero k db : k ∉ stake_keys db -> rows_for k db = 0%nat.
Proof.
  intros Hk. unfold rows_for.
  assert (filter (fun r => stake_key r = k) (mints db) = []) as ->; [|done].
  apply filter_none. intros r Hr E. apply Hk.
  rewrite <-E. by apply list_elem_of_fmap_2.
Qed.

Lemma rows_for_pos k db : k ∈ stake_keys db -> (0 < rows_for k db)%nat.
Proof.
  intros (r & -> & Hr)%list_elem_of_fmap. unfold rows_for.
  assert (r ∈ filter (fun r' => stake_key r' = stake_key r) (mints db))
    as Hin by (by apply list_elem_of_filter).
  destruct (filter _ (mints db)); [by apply elem_of_nil in Hin|simpl; lia].
Qed.

Lemma issued_for_app k (a b : list Event) :
  issued_for k (a ++ b) = (issued_for k a + issued_for k b)%nat.
Proof. unfold issued_for. by rewrite filter_app, length_app. Qed.

Lemma issued_for_log k (l : LogLine) (ev : list Event) :
  issued_for k (Log l :: ev) = issued_for k ev.
Proof. done. Qed.

Lemma issued_for_write k (o : Op) (ev : list Event) :
  issued_for k (Write o :: ev) = issued_for k ev.
Proof. done. Qed.

End CountFacts.

(** ** Every turn of a pass keeps the store well formed *)
Section Turns.
Variable env : Env.


Lemma good_here (k : Cont) (db : DB) (ev : list Event) :
  (forall s, issued_for s ev = 0%nat) -> good db (k, db, ev).
Proof.
  intros H. split; [done|]. split; [reflexivity|].
  intros s. simpl. rewrite H. lia.
Qed.

Lemma good_prepend (db : DB) (ev : list Event) (o : Out) :
  (forall s, issued_for s ev = 0%nat) -> good db o -> good db (prepend ev o).
Proof.
  destruct o as [[k db'] ev']. intros H (?&?&Hc).
  split; [done|]. split; [done|].
  intros s. simpl. rewrite CountFacts.issued_for_app, H. apply Hc.
Qed.

Lemma good_seen (db : DB) (id : string) (o : Out) :
  good (Sql.insert_seen db id) o -> good db o.
Proof.
  destruct o as [[k db'] ev']. intros (Hok&Hg&Hc).
  split; [|split]; simpl in *.
  - intros ?. by apply Hok, SqlFacts.insert_seen_ok.
  - etrans; [apply SqlFacts.insert_seen_grows|done].
  - intros s. specialize (Hc s).
    by rewrite CountFacts.rows_for_insert_seen in Hc.
Qed.

Lemma good_loop (utxos : list Utxo) : forall db, good db (loop env db utxos).
Proof.
  induction utxos as [|u rest IH]; intros db; simpl.
  - by apply good_here.
  - destruct (Sql.select_seen db (utxoId u)); [apply IH|].
    destruct (qualifies env u) as [[|]|].
    + by apply good_here.
    + apply good_prepend; [done|]. apply (good_seen _ (utxoId u)), IH.
    + by apply good_here.
Qed.

Lemma insert_row_good db k p t :
  k ∉ stake_keys db -> t ∉ paid_txs db ->
  let db1 := with_row db (pending_row k p t) in
  (db_ok db -> db_ok db1)
  /\ grows db db1
  /\ forall s, rows_for s db1
               = (rows_for s db + if decide (k = s) then 1 else 0)%nat.
Proof.
  intros Hk Ht db1. split; [|split].
  - intros (H1&H2&H3). unfold db_ok, stake_keys, paid_txs, db1. simpl.
    rewrite !fmap_app. simpl. split; [|split; [|done]].
    + apply NoDup_app. split; [done|]. split; [|apply NoDup_singleton].
      intros x Hx Hx'%list_elem_of_singleton. by subst.
    + apply NoDup_app. split; [done|]. split; [|apply NoDup_singleton].
      intros x Hx Hx'%list_elem_of_singleton. by subst.
  - unfold grows, stake_keys, paid_txs, db1. simpl. rewrite !fmap_app.
    split; [by apply prefix_app_r|]. split; [by apply prefix_app_r|done].
  - intros s. unfold db1, with_row.
    rewrite CountFacts.rows_for_append. simpl. by destruct db.
Qed.

Lemma issued_for_one s p k t d :
  issued_for s [Issue p k t d] = if decide (k = s) then 1%nat else 0%nat.
Proof.
  unfold issued_for. rewrite filter_cons, filter_nil. simpl.
  case_decide as E; apply bool_decide_eq_true in E || apply not_true_is_false, bool_decide_eq_false in E;
    by case_decide.
Qed.

Lemma good_mintAndSend_begin db p k t rnd :
  forall m db' ev, mintAndSend_begin env db p k t rnd = (m, db', ev) ->
  forall c, good db (c, db', ev).
Proof.
  intros m db' ev. unfold mintAndSend_begin.
  destruct (SqlFacts.insert_mint_spec db k p t)
    as [(Hk & Ht & ->)|(_ & ->)]; simpl.
  - destruct (insert_row_good db k p t Hk Ht) as (G1 & G2 & G3).
    set (db1 := with_row _ _) in *.
    assert (forall c ev0,
               (forall s, issued_for s ev0
                          <= if decide (k = s) then 1 else 0)%nat ->
               good db (c, db1, ev0)) as Hle.
    { intros c ev0 Hev. split; [exact G1|]. split; [exact G2|].
      intros s. simpl. rewrite G3. specialize (Hev s). lia. }
    destruct (loadDesigns env) as [designs|].
    + destruct (pickRandomDesign designs rnd) as [d|].
      * intros [= <- <- <-] c. apply Hle. intros s.
        by rewrite CountFacts.issued_for_write, issued_for_one.
      * intros [= <- <- <-] c. apply Hle. intros s.
        change (issued_for s [_]) with 0%nat. lia.
    + intros [= <- <- <-] c. apply Hle. intros s.
      change (issued_for s [_]) with 0%nat. lia.
  - intros [= <- <- <-] c. by apply good_here.
Qed.

Lemma good_marked (db : DB) (id : string) (l : LogLine) (rest : list Utxo) :
  good db (prepend [Log l; Write (OpSeen id)]
                   (loop env (Sql.insert_seen db id) rest)).
Proof. apply good_prepend; [done|]. apply (good_seen _ id), good_loop. Qed.

Lemma good_afterInputs u rest r rnd db : good db (afterInputs env u rest r rnd db).
Proof.
  unfold afterInputs. destruct r as [txUtxos|]; [|by apply good_here].
  destruct (truthy _) as [payerAddr|]; [|apply good_marked].
  destruct (getStakeKeyFromAddr env payerAddr) as [stakeKey|];
    [|apply good_marked].
  destruct (Sql.select_stake db stakeKey); [apply good_marked|].
  destruct (mintAndSend_begin env _ _ _ _ _) as [[m db'] ev] eqn:E.
  destruct m; eapply good_mintAndSend_begin; eauto.
Qed.

Lemma good_afterMint u r rest db : good db (afterMint env u r rest db).
Proof.
  unfold afterMint. destruct r as [mintedTx|].
  - apply good_prepend; [by destruct (truthy mintedTx)|].
    apply (good_seen _ (utxoId u)), good_loop.
  - apply good_prepend; [done|]. apply good_loop.
Qed.

Lemma good_resume k a db : good db (resume env k a db).
Proof.
  destruct k, a; simpl; try (by apply good_here).
  - destruct r; [apply good_loop|by apply good_here].
  - apply good_afterInputs.
  - destruct r as [txHash|]; simpl; [|by apply good_here].
    split; [apply SqlFacts.update_minted_ok|].
    split; [apply SqlFacts.update_minted_grows|].
    intros s. simpl. by rewrite CountFacts.rows_for_update_minted.
  - apply good_afterMint.
Qed.

(** *** The process *)


Lemma act_ok s x : sys_ok s -> sys_ok (act env s x).
Proof.
  intros [Hdb Hc]. destruct x as [|i a|]; simpl.
  - split; [done|]. intros k. simpl.
    rewrite CountFacts.issued_for_app. specialize (Hc k).
    change (issued_for k [FetchPage]) with 0%nat. lia.
  - destruct (tasks s !! i) as [k|]; [|done].
    pose proof (good_resume k a (store s)) as (G1 & _ & G3).
    destruct (resume env k a (store s)) as [[k' db'] ev]. simpl in G1, G3.
    split; [by apply G1|].
    intros s'. simpl. rewrite CountFacts.issued_for_app.
    specialize (Hc s'). specialize (G3 s'). lia.
  - done.
Qed.

Lemma act_grows s x : grows (store s) (store (act env s x)).
Proof.
  destruct x as [|i a|]; simpl; [done| |done].
  destruct (tasks s !! i) as [k|]; [|done].
  pose proof (good_resume k a (store s)) as (_ & G2 & _).
  by destruct (resume env k a (store s)) as [[k' db'] ev].
Qed.

Lemma exec_from_ok sched : forall s, sys_ok s -> sys_ok (exec_from env s sched).
Proof.
  induction sched as [|x sched IH]; intros s Hs; [done|].
  apply IH. by apply act_ok.
Qed.

Lemma exec_from_grows sched :
  forall s, grows (store s) (store (exec_from env s sched)).
Proof.
  induction sched as [|x sched IH]; intros s; [done|].
  etrans; [apply (act_grows s x)|apply IH].
Qed.

Lemma boot_ok : sys_ok boot.
Proof.
  split; [|intros k; change (issued_for k (trace boot)) with 0%nat; lia].
  repeat split; apply NoDup_nil_2.
Qed.

Lemma exec_ok sched : sys_ok (exec env sched).
Proof. apply exec_from_ok, boot_ok. Qed.

Lemma exec_app sched sched' :
  exec env (sched ++ sched') = exec_from env (exec env sched) sched'.
Proof. unfold exec, exec_from. apply fold_left_app. Qed.

End Turns.

(** ** What the loop leaves alone *)
Section Loop.
Variable env : Env.

Lemma grows_seen db db' id :
  grows db db' -> id ∈ seen_utxos db -> id ∈ seen_utxos db'.
Proof. intros (_&_&[k ->]) H. apply elem_of_app. by left. Qed.

Lemma grows_stake db db' k :
  grows db db' -> k ∈ stake_keys db -> k ∈ stake_keys db'.
Proof. intros ([l ->]&_&_) H. apply elem_of_app. by left. Qed.

Lemma grows_paid db db' t :
  grows db db' -> t ∈ paid_txs db -> t ∈ paid_txs db'.
Proof. intros (_&[l ->]&_) H. apply elem_of_app. by left. Qed.

Lemma prepend_db ev (o : Out) : (prepend ev o).1.2 = o.1.2.
Proof. by destruct o as [[??]?]. Qed.

Lemma prepend_events ev (o : Out) : (prepend ev o).2 = ev ++ o.2.
Proof. by destruct o as [[??]?]. Qed.

Lemma prepend_nil (o : Out) : prepend [] o = o.
Proof. by destruct o as [[??]?]. Qed.

(** The loop itself writes to [seen_utxos] only. *)
Lemma loop_mints (utxos : list Utxo) :
  forall db, mints (loop env db utxos).1.2 = mints db.
Proof.
  induction utxos as [|u rest IH]; intros db; simpl; [done|].
  destruct (Sql.select_seen db (utxoId u)); [apply IH|].
  destruct (qualifies env u) as [[|]|]; simpl; try done.
  by rewrite prepend_db, IH, SqlFacts.insert_seen_mints.
Qed.

Lemma loop_no_issue (utxos : list Utxo) :
  forall db k, issued_for k (loop env db utxos).2 = 0%nat.
Proof.
  induction utxos as [|u rest IH]; intros db k; simpl; [done|].
  destruct (Sql.select_seen db (utxoId u)); [apply IH|].
  destruct (qualifies env u) as [[|]|]; simpl; [done| |done].
  rewrite prepend_events. apply IH.
Qed.

Lemma loop_seen (utxos : list Utxo) db id :
  id ∈ seen_utxos db -> id ∈ seen_utxos (loop env db utxos).1.2.
Proof. apply grows_seen, good_loop. Qed.

(** The loop marks deposits of its own page only. *)
Lemma loop_seen_only (utxos : list Utxo) :
  forall db id,
    id ∈ seen_utxos (loop env db utxos).1.2 ->
    id ∈ seen_utxos db \/ id ∈ (utxoId <$> utxos).
Proof.
  induction utxos as [|u rest IH]; intros db id; simpl; [by left|].
  destruct (Sql.select_seen db (utxoId u)) eqn:E.
  { intros [?|?]%IH; [by left|right; by right]. }
  destruct (qualifies env u) as [[|]|]; simpl; [by left| |by left].
  rewrite prepend_db. intros [H|?]%IH; [|right; by right].
  unfold Sql.insert_seen in H. rewrite E in H. simpl in H.
  apply elem_of_app in H as [?|H%list_elem_of_singleton]; [by left|].
  subst. right. by left.
Qed.

(** A page of seen deposits: nothing is asked, nothing is written. *)
Lemma loop_all_seen (utxos : list Utxo) db :
  Forall (fun u => utxoId u ∈ seen_utxos db) utxos ->
  loop env db utxos = (KDone, db, []).
Proof.
  induction 1 as [|u rest Hu _ IH]; simpl; [done|].
  apply SqlFacts.select_seen_true in Hu. by rewrite Hu.
Qed.

Lemma exec_from_seen sched s id :
  id ∈ seen_utxos (store s) ->
  id ∈ seen_utxos (store (exec_from env s sched)).
Proof. apply grows_seen, exec_from_grows. Qed.

Lemma exec_from_stake sched s k :
  k ∈ stake_keys (store s) ->
  k ∈ stake_keys (store (exec_from env s sched)).
Proof. apply grows_stake, exec_from_grows. Qed.

Lemma act_rows s x k :
  (rows_for k (store s) <= rows_for k (store (act env s x)))%nat.
Proof.
  destruct x as [|i a|]; simpl; [done| |done].
  destruct (tasks s !! i) as [c|]; [|done].
  pose proof (good_resume env c a (store s)) as (_ & _ & G3).
  destruct (resume env c a (store s)) as [[k' db'] ev]. simpl in *.
  specialize (G3 k). lia.
Qed.

Lemma exec_from_rows sched k :
  forall s, (rows_for k (store s)
             <= rows_for k (store (exec_from env s sched)))%nat.
Proof.
  induction sched as [|x sched IH]; intros s; [done|].
  etrans; [apply (act_rows s x k)|apply IH].
Qed.

(** An UPDATE keyed by a [paid_tx] that no row has touches nothing. *)
Lemma set_minted_absent h n t (l : list MintRow) :
  t ∉ (paid_tx <$> l) -> Sql.set_minted h n t <$> l = l.
Proof.
  induction l as [|r l IH]; [done|]. rewrite fmap_cons, not_elem_of_cons.
  intros [Hr Hl]. rewrite fmap_cons, IH by done.
  unfold Sql.set_minted. by rewrite decide_False by done.
Qed.

End Loop.

(** ** mintAndSend *)
Section MintAndSend.
Variable env : Env.

(** The claim is new on both columns: the row is written, and a mint
    transaction is built when a design could be drawn. *)
Lemma mintAndSend_begin_fresh db p k t rnd :
  k ∉ stake_keys db -> t ∉ paid_txs db ->
  mintAndSend_begin env db p k t rnd
  = match drawn env rnd with
    | Some d => (MAwait d, with_row db (pending_row k p t),
                 [Write (OpClaim k p t); Issue p k t d])
    | None => (MThrew, with_row db (pending_row k p t),
               [Write (OpClaim k p t)])
    end.
Proof.
  intros Hk Ht. unfold mintAndSend_begin, drawn.
  destruct (SqlFacts.insert_mint_spec db k p t)
    as [(_ & _ & ->)|([?|?] & _)]; [|done..].
  simpl. destruct (loadDesigns env) as [ds|]; simpl; [|done].
  by destruct (pickRandomDesign ds rnd).
Qed.

(** One of the two columns has the value already: [changes] is 0. *)
Lemma mintAndSend_begin_duplicate db p k t rnd :
  (k ∈ stake_keys db) \/ (t ∈ paid_txs db) ->
  mintAndSend_begin env db p k t rnd
  = (MReturned, db, [Write (OpClaim k p t); Log (LDuplicate k)]).
Proof.
  intros H. unfold mintAndSend_begin.
  destruct (SqlFacts.insert_mint_spec db k p t)
    as [(Hk & Ht & _)|(_ & ->)]; [|done].
  by destruct H.
Qed.

(** The payer is found and has a stake key. *)
Lemma afterInputs_resolved u rest payer k rnd db :
  payer <> "" -> getStakeKeyFromAddr env payer = Some k ->
  afterInputs env u rest (inputs_from payer) rnd db
  = match Sql.select_stake db k with
    | Some _ =>
        prepend [Log (LAlready k (tx_hash u)); Write (OpSeen (utxoId u))]
                (loop env (Sql.insert_seen db (utxoId u)) rest)
    | None =>
        match mintAndSend_begin env db payer k (tx_hash u) rnd with
        | (MReturned, db', ev) => (KMintDone u (Resolved None) rest, db', ev)
        | (MThrew, db', ev) => (KMintDone u Rejected rest, db', ev)
        | (MAwait d, db', ev) => (KIssue u payer k d rest, db', ev)
        end
    end.
Proof.
  intros Hp Hk. unfold afterInputs, inputs_from. simpl.
  rewrite decide_False by done. by rewrite Hk.
Qed.

Lemma status_pending db k p t :
  k ∉ stake_keys db -> status (with_row db (pending_row k p t)) k = StPaid t.
Proof.
  intros Hk. unfold status, Sql.select_stake, with_row. simpl.
  rewrite filter_app, CountFacts.filter_none.
  - simpl. rewrite filter_cons_True by done. done.
  - intros r Hr E. apply Hk. rewrite <-E. by apply list_elem_of_fmap_2.
Qed.

End MintAndSend.

(** ** Sequences of writes *)
Module OpFacts.

Lemma stake_keys_with_row db k p t :
  stake_keys (with_row db (pending_row k p t)) = stake_keys db ++ [k].
Proof. unfold stake_keys, with_row. simpl. by rewrite fmap_app. Qed.

Lemma paid_txs_with_row db k p t :
  paid_txs (with_row db (pending_row k p t)) = paid_txs db ++ [t].
Proof. unfold paid_txs, with_row. simpl. by rewrite fmap_app. Qed.

Lemma apply_op_grows db o : grows db (apply_op db o).
Proof.
  destruct o as [k p t|h n t|id]; simpl.
  - destruct (SqlFacts.insert_mint_spec db k p t) as [(Hk & Ht & ->)|(_ & ->)];
      [|done].
    by destruct (insert_row_good db k p t Hk Ht) as (_ & ? & _).
  - apply SqlFacts.update_minted_grows.
  - apply SqlFacts.insert_seen_grows.
Qed.

Lemma apply_op_ok db o : db_ok db -> db_ok (apply_op db o).
Proof.
  destruct o as [k p t|h n t|id]; simpl.
  - destruct (SqlFacts.insert_mint_spec db k p t) as [(Hk & Ht & ->)|(_ & ->)];
      [|done].
    by destruct (insert_row_good db k p t Hk Ht) as (? & _).
  - apply SqlFacts.update_minted_ok.
  - apply SqlFacts.insert_seen_ok.
Qed.

(** A claim adds a row for the stake key exactly when it inserts. *)
Lemma rows_for_apply_op k db o :
  rows_for k (apply_op db o)
  = (rows_for k db + inserted_for k db [o])%nat.
Proof.
  destruct o as [k' p t|h n t|id]; simpl.
  - destruct (SqlFacts.insert_mint_spec db k' p t)
      as [(Hk & Ht & ->)|(_ & ->)]; simpl.
    + destruct (insert_row_good db k' p t Hk Ht) as (_ & _ & ->).
      case_decide; lia.
    + case_decide; lia.
  - rewrite CountFacts.rows_for_update_minted. lia.
  - rewrite CountFacts.rows_for_insert_seen. lia.
Qed.

Lemma inserted_for_cons k db o ops :
  inserted_for k db (o :: ops)
  = (inserted_for k db [o] + inserted_for k (apply_op db o) ops)%nat.
Proof. simpl. lia. Qed.

Lemma rows_for_ops k ops :
  forall db,
    rows_for k (foldl apply_op db ops)
    = (rows_for k db + inserted_for k db ops)%nat.
Proof.
  induction ops as [|o ops IH]; intros db; [simpl; lia|].
  rewrite inserted_for_cons. cbn [foldl].
  rewrite IH, rows_for_apply_op. lia.
Qed.

Lemma ops_ok ops : forall db, db_ok db -> db_ok (foldl apply_op db ops).
Proof.
  induction ops as [|o ops IH]; intros db H; [done|].
  cbn [foldl]. by apply IH, apply_op_ok.
Qed.

(** Once the stake key has a row, no claim for it inserts. *)
Lemma inserted_for_taken k ops :
  forall db, k ∈ stake_keys db -> inserted_for k db ops = 0%nat.
Proof.
  induction ops as [|o ops IH]; intros db Hk; [done|].
  rewrite inserted_for_cons, IH
    by (eapply grows_stake; [apply apply_op_grows|done]).
  destruct o as [k' p t|h n t|id]; simpl; try lia.
  case_decide as E; [subst k'|lia].
  destruct (SqlFacts.insert_mint_spec db k p t) as [(Hk' & _)|(_ & ->)];
    [done|simpl; lia].
Qed.

(** The first claim for a stake key without a row inserts, when its
    transaction id is used by no row and by no claim of another key. *)
Lemma inserted_for_first k ops :
  forall db,
    k ∉ stake_keys db ->
    own_txs k ops <> [] ->
    (forall t, t ∈ own_txs k ops ->
               (t ∉ paid_txs db) /\ (t ∉ foreign_txs k ops)) ->
    inserted_for k db ops = 1%nat.
Proof.
  induction ops as [|o ops IH]; intros db Hk Hne Hown; [done|].
  rewrite inserted_for_cons.
  destruct o as [k' p t|h n t|id]; cbn [own_txs foreign_txs] in *.
  - destruct (decide (k' = k)) as [->|Hkk].
    + destruct (Hown t) as [Ht _]; [by left|].
      simpl. rewrite decide_True by done.
      destruct (SqlFacts.insert_mint_spec db k p t)
        as [(_ & _ & ->)|([?|?] & _)]; [|done..].
      simpl. rewrite inserted_for_taken; [lia|].
      rewrite stake_keys_with_row. apply elem_of_app. right. by left.
    + simpl. rewrite decide_False by done. simpl.
      apply IH; [|done|].
      * destruct (SqlFacts.insert_mint_spec db k' p t)
          as [(_ & _ & ->)|(_ & ->)]; simpl; [|done].
        rewrite stake_keys_with_row, not_elem_of_app. split; [done|].
        rewrite list_elem_of_singleton. congruence.
      * intros t' Ht'. destruct (Hown t' Ht') as [H1 H2].
        apply not_elem_of_cons in H2 as [H2 H3]. split; [|done].
        destruct (SqlFacts.insert_mint_spec db k' p t)
          as [(_ & _ & ->)|(_ & ->)]; simpl; [|done].
        rewrite paid_txs_with_row, not_elem_of_app. split; [done|].
        by rewrite list_elem_of_singleton.
  - simpl. apply IH; [|done|].
    + by rewrite SqlFacts.update_minted_stake_keys.
    + intros t' Ht'. rewrite SqlFacts.update_minted_paid_txs. by apply Hown.
  - simpl. apply IH; [|done|].
    + unfold stake_keys. by rewrite SqlFacts.insert_seen_mints.
    + intros t' Ht'. unfold paid_txs. rewrite SqlFacts.insert_seen_mints.
      by apply Hown.
Qed.

End OpFacts.

(** ** The store is what the writes of the trace make it *)
Section Writes.
Variable env : Env.

Lemma writes_app (a b : list Event) : writes (a ++ b) = writes a ++ writes b.
Proof.
  induction a as [|e a IH]; [done|]. destruct e; simpl; by rewrite ?IH.
Qed.

Lemma written_prepend db db1 ev (o : Out) :
  foldl apply_op db (writes ev) = db1 ->
  written db1 o -> written db (prepend ev o).
Proof.
  unfold written. intros <- H.
  by rewrite prepend_db, prepend_events, writes_app, foldl_app.
Qed.

Lemma written_loop (utxos : list Utxo) :
  forall db, written db (loop env db utxos).
Proof.
  induction utxos as [|u rest IH]; intros db; cbn [loop]; [done|].
  destruct (Sql.select_seen db (utxoId u)); [apply IH|].
  destruct (qualifies env u) as [[|]|]; [done| |done].
  by eapply written_prepend.
Qed.

Lemma written_mintAndSend_begin db p k t rnd :
  forall m db' ev, mintAndSend_begin env db p k t rnd = (m, db', ev) ->
  forall c, written db (c, db', ev).
Proof.
  intros m db' ev. unfold mintAndSend_begin, written.
  destruct (Sql.insert_mint db k p t) as [db1 changes] eqn:E.
  assert (E1 : db1 = (Sql.insert_mint db k p t).1) by (by rewrite E).
  destruct (changes =? 0)%nat; [intros [= <- <- <-] c; by subst|].
  destruct (loadDesigns env) as [designs|];
    [|intros [= <- <- <-] c; by subst].
  destruct (pickRandomDesign designs rnd);
    intros [= <- <- <-] c; by subst.
Qed.

Lemma written_afterInputs u rest r rnd db :
  written db (afterInputs env u rest r rnd db).
Proof.
  unfold afterInputs. destruct r as [txUtxos|]; [|done].
  destruct (truthy _) as [payerAddr|];
    [|by eapply written_prepend, written_loop].
  destruct (getStakeKeyFromAddr env payerAddr) as [stakeKey|];
    [|by eapply written_prepend, written_loop].
  destruct (Sql.select_stake db stakeKey);
    [by eapply written_prepend, written_loop|].
  destruct (mintAndSend_begin _ _ _ _ _ _) as [[m db'] ev] eqn:E.
  destruct m; eapply written_mintAndSend_begin; eauto.
Qed.

Lemma written_resume k a db : written db (resume env k a db).
Proof.
  destruct k, a; cbn [resume]; try done.
  - destruct r; [apply written_loop|done].
  - apply written_afterInputs.
  - by destruct r.
  - destruct r as [mintedTx|]; cbn [afterMint].
    + eapply written_prepend, written_loop. by destruct (truthy mintedTx).
    + by eapply written_prepend, written_loop.
Qed.

Lemma act_written db0 s x :
  store s = foldl apply_op db0 (writes (trace s)) ->
  store (act env s x) = foldl apply_op db0 (writes (trace (act env s x))).
Proof.
  intros H. destruct x as [|i a|]; simpl; [|..|done].
  - by rewrite writes_app, foldl_app, <-H.
  - destruct (tasks s !! i) as [k|]; [|done].
    pose proof (written_resume k a (store s)) as W. unfold written in W.
    destruct (resume env k a (store s)) as [[k' db'] ev]. simpl in *.
    by rewrite writes_app, foldl_app, <-H.
Qed.

Lemma exec_from_written sched :
  forall s db0,
    store s = foldl apply_op db0 (writes (trace s)) ->
    store (exec_from env s sched)
    = foldl apply_op db0 (writes (trace (exec_from env s sched))).
Proof.
  induction sched as [|x sched IH]; intros s db0 H; [done|].
  apply IH. by apply act_written.
Qed.

Lemma exec_written sched :
  store (exec env sched)
  = foldl apply_op empty_db (writes (trace (exec env sched))).
Proof. by apply exec_from_written. Qed.

End Writes.

(** ** The claims *)
(** ** The deposit that a pass is at *)
Section Holding.
Variable env : Env.

Lemma prepend_cont ev (o : Out) : (prepend ev o).1.1 = o.1.1.
Proof. by destruct o as [[??]?]. Qed.

(** The loop stops at a deposit that is not seen and that the classifier
    accepts. *)
Lemma loop_holding (utxos : list Utxo) :
  forall db u,
    holding (loop env db utxos).1.1 = Some u ->
    qualifies env u = Some true
    /\ (utxoId u ∉ seen_utxos (loop env db utxos).1.2).
Proof.
  induction utxos as [|u0 rest IH]; intros db u; cbn [loop]; [done|].
  destruct (Sql.select_seen db (utxoId u0)) eqn:Hs; [apply IH|].
  destruct (qualifies env u0) as [[|]|] eqn:Hq; [| |done].
  - simpl. intros [= <-]. split; [done|].
    by apply SqlFacts.select_seen_false.
  - rewrite prepend_cont, prepend_db. apply IH.
Qed.

Lemma marked_holding (l : list Event) db rest u :
  holding (prepend l (loop env db rest)).1.1 = Some u ->
  qualifies env u = Some true
  /\ (utxoId u ∉ seen_utxos (prepend l (loop env db rest)).1.2).
Proof. rewrite prepend_cont, prepend_db. apply loop_holding. Qed.

(** A pass stays at its deposit or takes up one that is not seen and that
    the classifier accepts. *)
Lemma resume_holding (k : Cont) (a : Resp) (db : DB) (u : Utxo) :
  holding (resume env k a db).1.1 = Some u ->
  holding k = Some u
  \/ (qualifies env u = Some true
      /\ (utxoId u ∉ seen_utxos (resume env k a db).1.2)).
Proof.
  destruct k as [|u0 rest|u0 p s d rest|u0 r rest|], a; cbn [resume];
    try (by left).
  - destruct r as [page|]; [|done]. intros H. right. by apply loop_holding.
  - unfold afterInputs. destruct r as [txUtxos|]; [|done]. cbv zeta.
    destruct (truthy (((txUtxos ≫= inputs) ≫= head) ≫= address))
      as [payerAddr|]; [|intros H; right; by apply marked_holding].
    destruct (getStakeKeyFromAddr env payerAddr) as [stakeKey|];
      [|intros H; right; by apply marked_holding].
    destruct (Sql.select_stake db stakeKey);
      [intros H; right; by apply marked_holding|].
    destruct (mintAndSend_begin _ _ _ _ _ _) as [[m db'] ev].
    destruct m; by left.
  - destruct (mintAndSend_end _ _ _ _ _) as [[s' db'] ev]. by left.
  - unfold afterMint.
    destruct r as [mintedTx|]; intros H; right; by apply marked_holding.
Qed.

(** A pass that is at no deposit writes no row and builds no mint. *)
Lemma resume_idle (k : Cont) (a : Resp) (db : DB) :
  holding k = None ->
  mints (resume env k a db).1.2 = mints db
  /\ forall key, issued_for key (resume env k a db).2 = 0%nat.
Proof.
  destruct k, a; try done; cbn [resume]. intros _.
  destruct r as [page|]; [|done].
  split; [apply loop_mints|intros key; apply loop_no_issue].
Qed.

Lemma act_held_qualify (s : Sys) (x : Action) :
  held_qualify env (tasks s) -> held_qualify env (tasks (act env s x)).
Proof.
  intros H. destruct x as [|i a|]; cbn [act].
  - apply Forall_app. split; [done|]. by constructor.
  - destruct (tasks s !! i) as [k|] eqn:Hi; [|done].
    pose proof (resume_holding k a (store s)) as Hh.
    destruct (resume env k a (store s)) as [[k' db'] ev].
    cbn [fst snd] in Hh. simpl. apply Forall_insert; [done|].
    intros u Hu. destruct (Hh u Hu) as [Hk|[Hq _]]; [|done].
    by apply (Forall_lookup_1 _ _ _ _ H Hi).
  - constructor.
Qed.

Lemma exec_held_qualify (sched : list Action) :
  held_qualify env (tasks (exec env sched)).
Proof.
  unfold exec. assert (H : held_qualify env (tasks boot)) by constructor.
  revert H. generalize boot.
  induction sched as [|x sched IH]; intros s Hs; [done|].
  apply (IH (act env s x)). by apply act_held_qualify.
Qed.

Lemma act_unheld (id : string) (s : Sys) (x : Action) :
  id ∈ seen_utxos (store s) -> unheld id (tasks s) ->
  unheld id (tasks (act env s x)).
Proof.
  intros Hid H. destruct x as [|i a|]; cbn [act].
  - apply Forall_app. split; [done|]. by constructor.
  - destruct (tasks s !! i) as [k|] eqn:Hi; [|done].
    pose proof (resume_holding k a (store s)) as Hh.
    pose proof (good_resume env k a (store s)) as (_ & Hg & _).
    destruct (resume env k a (store s)) as [[k' db'] ev].
    cbn [fst snd] in Hh, Hg. simpl. apply Forall_insert; [done|].
    intros u Hu. destruct (Hh u Hu) as [Hk|[_ Hn]].
    + by apply (Forall_lookup_1 _ _ _ _ H Hi).
    + intros E. apply Hn. rewrite E. by apply (grows_seen (store s)).
  - constructor.
Qed.

Lemma exec_from_unheld (id : string) (sched : list Action) :
  forall s,
    id ∈ seen_utxos (store s) -> unheld id (tasks s) ->
    unheld id (tasks (exec_from env s sched)).
Proof.
  induction sched as [|x sched IH]; intros s Hid Hs; [done|].
  apply (IH (act env s x)); [|by apply act_unheld].
  by apply (exec_from_seen env [x]).
Qed.

End Holding.

Section Claims.
Variable env : Env.

(** C7.  The UPDATE that records a mint is idempotent: run a second time
    with the same transaction hash and asset name, keyed by the same
    [paid_tx], it leaves every row as the first run left it, and the end
    of [mintAndSend] resolves in the same way; after the first run the
    rows with that [paid_tx] carry the hash and the name. *)
Theorem markFulfilled_idempotent (db : DB) (payerAddress paidTx txHash : string)
    (design : Design) :
  let db1 := Sql.update_minted db txHash (name design) paidTx in
  Sql.update_minted db1 txHash (name design) paidTx = db1
  /\ mintAndSend_end db payerAddress paidTx design (Some txHash)
     = (Resolved (Some txHash), db1,
        [Write (OpMinted txHash (name design) paidTx);
         Log (LMinted (name design) payerAddress txHash)])
  /\ mintAndSend_end db1 payerAddress paidTx design (Some txHash)
     = (Resolved (Some txHash), db1,
        [Write (OpMinted txHash (name design) paidTx);
         Log (LMinted (name design) payerAddress txHash)])
  /\ (forall k, status db1 k = status (Sql.update_minted db1 txHash
                                          (name design) paidTx) k)
  /\ Forall (fun r => paid_tx r = paidTx ->
                      minted_tx r = Some txHash
                      /\ asset_name r = Some (name design)) (mints db1).
Proof.
  intros db1.
  assert (E : Sql.update_minted db1 txHash (name design) paidTx = db1).
  { unfold db1, Sql.update_minted. simpl. f_equal.
    rewrite <-list_fmap_compose. apply list_fmap_ext.
    intros ? r _. apply SqlFacts.set_minted_idem. }
  split; [done|]. split; [done|]. split; [simpl; by rewrite E|].
  split; [by rewrite E|].
  apply Forall_forall. intros r (r0 & -> & _)%list_elem_of_fmap.
  unfold Sql.set_minted. case_decide; simpl; [done|]. by intros ?.
Qed.

(** C10.  A claim whose transaction id is already in [mints] under
    another stake key is ignored like a duplicate: nothing is inserted,
    [mintAndSend] returns without drawing a design or building a
    transaction, the stake key has no row at all, and the pass marks the
    deposit seen and goes on. *)
Theorem duplicate_on_paid_tx (db : DB) (payerAddress stakeKey paidTx : string)
    (rnd : nat) :
  paidTx ∈ paid_txs db ->
  stakeKey ∉ stake_keys db ->
  Sql.insert_mint db stakeKey payerAddress paidTx = (db, 0%nat)
  /\ mintAndSend_begin env db payerAddress stakeKey paidTx rnd
     = (MReturned, db,
        [Write (OpClaim stakeKey payerAddress paidTx);
         Log (LDuplicate stakeKey)])
  /\ Sql.select_stake db stakeKey = None
  /\ status db stakeKey = StNone
  /\ (forall u rest,
        tx_hash u = paidTx -> payerAddress <> "" ->
        getStakeKeyFromAddr env payerAddress = Some stakeKey ->
        afterInputs env u rest (inputs_from payerAddress) rnd db
        = (KMintDone u (Resolved None) rest, db,
           [Write (OpClaim stakeKey payerAddress paidTx);
            Log (LDuplicate stakeKey)])
        /\ resume env (KMintDone u (Resolved None) rest) RTick db
           = prepend [Write (OpSeen (utxoId u))]
                     (loop env (Sql.insert_seen db (utxoId u)) rest)).
Proof.
  intros Ht Hk.
  assert (Hsel : Sql.select_stake db stakeKey = None)
    by (by apply SqlFacts.select_stake_None).
  split.
  { destruct (SqlFacts.insert_mint_spec db stakeKey payerAddress paidTx)
      as [(_ & ? & _)|(_ & ->)]; done. }
  split; [apply mintAndSend_begin_duplicate; by right|].
  split; [done|]. split; [unfold status; by rewrite Hsel|].
  intros u rest <- Hp Hs. split.
  - rewrite (afterInputs_resolved env u rest payerAddress stakeKey) by done.
    rewrite Hsel, mintAndSend_begin_duplicate by (by right). done.
  - done.
Qed.

Lemma with_row_stake db k p t : k ∈ stake_keys (with_row db (pending_row k p t)).
Proof.
  unfold stake_keys, with_row. simpl. rewrite fmap_app.
  apply elem_of_app. right. by left.
Qed.

Lemma with_row_paid db k p t : t ∈ paid_txs (with_row db (pending_row k p t)).
Proof.
  unfold paid_txs, with_row. simpl. rewrite fmap_app.
  apply elem_of_app. right. by left.
Qed.

(** C9.  The claim is new and the mint transaction then fails: the row
    written by the claim stays as it was written, with [minted_tx] and
    [asset_name] NULL; it is in every later store; a later deposit of the
    same stake key is answered by the already-minted branch, and a claim
    of the same transaction under another stake key by the duplicate
    branch. *)
Theorem failed_issuance_keeps_claim (db : DB) (u : Utxo) (rest : list Utxo)
    (payerAddr stakeKey : string) (rnd : nat) (design : Design) :
  payerAddr <> "" ->
  getStakeKeyFromAddr env payerAddr = Some stakeKey ->
  stakeKey ∉ stake_keys db ->
  tx_hash u ∉ paid_txs db ->
  drawn env rnd = Some design ->
  let db1 := with_row db (pending_row stakeKey payerAddr (tx_hash u)) in
  afterInputs env u rest (inputs_from payerAddr) rnd db
  = (KIssue u payerAddr stakeKey design rest, db1,
     [Write (OpClaim stakeKey payerAddr (tx_hash u));
      Issue payerAddr stakeKey (tx_hash u) design])
  /\ resume env (KIssue u payerAddr stakeKey design rest) (RIssue None) db1
     = (KMintDone u Rejected rest, db1, [])
  /\ mints (resume env (KMintDone u Rejected rest) RTick db1).1.2
     = mints db ++ [pending_row stakeKey payerAddr (tx_hash u)]
  /\ status db1 stakeKey = StPaid (tx_hash u)
  /\ (forall s sched,
        grows db1 (store s) ->
        stakeKey ∈ stake_keys (store (exec_from env s sched)))
  /\ (forall db2 u' rest' payer' rnd',
        grows db1 db2 -> payer' <> "" ->
        getStakeKeyFromAddr env payer' = Some stakeKey ->
        afterInputs env u' rest' (inputs_from payer') rnd' db2
        = prepend [Log (LAlready stakeKey (tx_hash u'));
                   Write (OpSeen (utxoId u'))]
                  (loop env (Sql.insert_seen db2 (utxoId u')) rest'))
  /\ (forall db2 payer' stake' rnd',
        grows db1 db2 ->
        mintAndSend_begin env db2 payer' stake' (tx_hash u) rnd'
        = (MReturned, db2,
           [Write (OpClaim stake' payer' (tx_hash u));
            Log (LDuplicate stake')])).
Proof.
  intros Hp Hs Hk Ht Hd db1.
  split.
  { rewrite (afterInputs_resolved env u rest payerAddr stakeKey) by done.
    assert (Sql.select_stake db stakeKey = None) as ->
      by (by apply SqlFacts.select_stake_None).
    rewrite mintAndSend_begin_fresh by done. by rewrite Hd. }
  split; [done|]. split.
  { simpl. by rewrite prepend_db, loop_mints. }
  split; [by apply status_pending|]. split.
  { intros s sched Hg. apply exec_from_stake.
    eapply grows_stake; [done|]. apply with_row_stake. }
  split.
  - intros db2 u' rest' payer' rnd' Hg Hp' Hs'.
    rewrite (afterInputs_resolved env u' rest' payer' stakeKey) by done.
    assert (is_Some (Sql.select_stake db2 stakeKey)) as [r ->]; [|done].
    apply SqlFacts.select_stake_Some.
    eapply grows_stake; [done|]. apply with_row_stake.
  - intros db2 payer' stake' rnd' Hg.
    apply mintAndSend_begin_duplicate. right.
    eapply grows_paid; [done|]. apply with_row_paid.
Qed.

(** C3, as the code has it.  Once [mintAndSend] has returned, with a
    transaction hash or on a duplicate, the deposit is marked seen in that
    turn.  When it raises, the turn goes on to the rest of the page
    without the insert: a deposit that was not seen, and is not listed
    again in the rest of the page, is still not seen when the turn ends.
    A later pass that finds the stake key in [mints] marks the deposit
    seen without a mint. *)
Theorem seen_after_settled_mint (db : DB) (u : Utxo) (rest : list Utxo) :
  (forall mintedTx,
      utxoId u ∈
        seen_utxos (resume env (KMintDone u (Resolved mintedTx) rest)
                           RTick db).1.2)
  /\ resume env (KMintDone u Rejected rest) RTick db
     = prepend [Log (LMintFailed (tx_hash u))] (loop env db rest)
  /\ (utxoId u ∉ seen_utxos db ->
      utxoId u ∉ (utxoId <$> rest) ->
      utxoId u ∉
        seen_utxos (resume env (KMintDone u Rejected rest) RTick db).1.2)
  /\ (forall db2 rest2 payerAddr stakeKey rnd,
        stakeKey ∈ stake_keys db2 -> payerAddr <> "" ->
        getStakeKeyFromAddr env payerAddr = Some stakeKey ->
        let o := afterInputs env u rest2 (inputs_from payerAddr) rnd db2 in
        utxoId u ∈ seen_utxos o.1.2
        /\ mints o.1.2 = mints db2
        /\ forall k, issued_for k o.2 = 0%nat).
Proof.
  split; [|split; [done|split]].
  - intros mintedTx. simpl. rewrite prepend_db.
    apply loop_seen, SqlFacts.insert_seen_elem.
  - intros Hu Hrest. simpl. rewrite prepend_db.
    intros [?|?]%loop_seen_only; done.
  - intros db2 rest2 payerAddr stakeKey rnd Hk Hp Hs o. unfold o.
    rewrite (afterInputs_resolved env u rest2 payerAddr stakeKey) by done.
    apply SqlFacts.select_stake_Some in Hk as [r ->].
    rewrite prepend_db, prepend_events. split; [|split].
    + apply loop_seen, SqlFacts.insert_seen_elem.
    + by rewrite loop_mints, SqlFacts.insert_seen_mints.
    + intros k. rewrite CountFacts.issued_for_app. simpl.
      by rewrite loop_no_issue.
Qed.

Lemma run_done db script : run env KDone db script = (KDone, db, []).
Proof. induction script as [|a script IH]; simpl; [done|]. by rewrite IH. Qed.

(** The turns of a pass that finds [u] new and qualifying, resolves it to
    a stake key without a row, and has its mint submitted as [txHash]. *)
Lemma pass_mints (db : DB) (u : Utxo) (rest : list Utxo)
    (payerAddr stakeKey txHash : string) (rnd : nat) (design : Design) :
  Sql.select_seen db (utxoId u) = false ->
  qualifies env u = Some true ->
  payerAddr <> "" ->
  getStakeKeyFromAddr env payerAddr = Some stakeKey ->
  stakeKey ∉ stake_keys db ->
  tx_hash u ∉ paid_txs db ->
  drawn env rnd = Some design ->
  scanForPayments env db
    [RPage (Some (u :: rest)); RInputs (inputs_from payerAddr) rnd;
     RIssue (Some txHash); RTick]
  = prepend
      ([FetchPage; FetchTx (tx_hash u);
        Write (OpClaim stakeKey payerAddr (tx_hash u));
        Issue payerAddr stakeKey (tx_hash u) design;
        Write (OpMinted txHash (name design) (tx_hash u));
        Log (LMinted (name design) payerAddr txHash);
        Write (OpSeen (utxoId u))]
       ++ match truthy (Some txHash) with
          | Some h => [Log (LProcessed (tx_hash u) h)]
          | None => []
          end)
      (loop env
         {| mints := mints db ++
                     [minted_row stakeKey payerAddr (tx_hash u) txHash
                                 (name design)];
            seen_utxos := seen_utxos db ++ [utxoId u] |}
         rest).
Proof.
  intros Hseen Hq Hp Hs Hk Ht Hd.
  unfold scanForPayments. cbn [run resume loop]. rewrite Hseen, Hq.
  cbn [run resume].
  rewrite (afterInputs_resolved env u rest payerAddr stakeKey) by done.
  assert (Sql.select_stake db stakeKey = None) as ->
    by (by apply SqlFacts.select_stake_None).
  rewrite mintAndSend_begin_fresh, Hd by done.
  cbn [run resume mintAndSend_end afterMint].
  assert (Sql.update_minted
            (with_row db (pending_row stakeKey payerAddr (tx_hash u)))
            txHash (name design) (tx_hash u)
          = {| mints := mints db ++
                        [minted_row stakeKey payerAddr (tx_hash u) txHash
                                    (name design)];
               seen_utxos := seen_utxos db |}) as ->.
  { unfold Sql.update_minted, with_row. simpl. f_equal.
    rewrite fmap_app, set_minted_absent by done. simpl.
    unfold Sql.set_minted. simpl. by rewrite decide_True. }
  unfold Sql.insert_seen at 1.
  assert (Sql.select_seen
            {| mints := mints db ++
                        [minted_row stakeKey payerAddr (tx_hash u) txHash
                                    (name design)];
               seen_utxos := seen_utxos db |} (utxoId u) = false) as ->
    by done.
  cbn [mints seen_utxos].
  destruct (loop env _ rest) as [[k' db'] ev'].
  unfold truthy. destruct (decide (txHash = "")); simpl; by rewrite app_nil_r.
Qed.

(** C5.  The deposit is new and qualifies, and the request for the inputs
    of its transaction fails: the pass ends with the store as it was when
    the loop reached the deposit, so the deposit is not in [seen_utxos]
    and no row was written for it; whatever the other passes have made of
    the store by the time the request fails, the failing pass writes
    nothing to it.  A later pass from that store, in which the request
    succeeds and names a stake key that has no row, writes the row, has the
    mint submitted and marks the deposit seen. *)
Theorem transient_resolution_failure (db : DB) (u : Utxo) (rest : list Utxo)
    (rnd : nat) :
  Sql.select_seen db (utxoId u) = false ->
  qualifies env u = Some true ->
  let failed :=
    scanForPayments env db [RPage (Some (u :: rest)); RInputs None rnd] in
  failed = (KDone, db, [FetchPage; FetchTx (tx_hash u); Log LScanError])
  /\ (utxoId u ∉ seen_utxos failed.1.2)
  /\ mints failed.1.2 = mints db
  /\ (forall db',
        resume env (KInputs u rest) (RInputs None rnd) db'
        = (KDone, db', [Log LScanError]))
  /\ (forall rest' payerAddr stakeKey txHash rnd' design,
        payerAddr <> "" ->
        getStakeKeyFromAddr env payerAddr = Some stakeKey ->
        stakeKey ∉ stake_keys db ->
        tx_hash u ∉ paid_txs db ->
        drawn env rnd' = Some design ->
        scanForPayments env failed.1.2
          [RPage (Some (u :: rest')); RInputs (inputs_from payerAddr) rnd';
           RIssue (Some txHash); RTick]
        = prepend
            ([FetchPage; FetchTx (tx_hash u);
              Write (OpClaim stakeKey payerAddr (tx_hash u));
              Issue payerAddr stakeKey (tx_hash u) design;
              Write (OpMinted txHash (name design) (tx_hash u));
              Log (LMinted (name design) payerAddr txHash);
              Write (OpSeen (utxoId u))]
             ++ match truthy (Some txHash) with
                | Some h => [Log (LProcessed (tx_hash u) h)]
                | None => []
                end)
            (loop env
               {| mints := mints db ++
                           [minted_row stakeKey payerAddr (tx_hash u) txHash
                                       (name design)];
                  seen_utxos := seen_utxos db ++ [utxoId u] |}
               rest')).
Proof.
  intros Hseen Hq failed.
  assert (E : failed
              = (KDone, db, [FetchPage; FetchTx (tx_hash u); Log LScanError])).
  { unfold failed, scanForPayments. simpl. by rewrite Hseen, Hq. }
  rewrite E. simpl. split; [done|].
  split; [by apply SqlFacts.select_seen_false|]. split; [done|].
  split; [done|]. intros. by apply pass_mints.
Qed.

Lemma marks_only_loop db id rest l :
  marks_only db id (prepend l (loop env (Sql.insert_seen db id) rest)) <->
  forall k, issued_for k l = 0%nat.
Proof.
  unfold marks_only. rewrite prepend_db, prepend_events. split.
  - intros (_ & _ & H) k. specialize (H k).
    rewrite CountFacts.issued_for_app in H. lia.
  - intros H. split; [apply loop_seen, SqlFacts.insert_seen_elem|].
    split; [by rewrite loop_mints, SqlFacts.insert_seen_mints|].
    intros k. by rewrite CountFacts.issued_for_app, H, loop_no_issue.
Qed.

(** C6, as the code has it.  A deposit on which the classifier says no, or
    whose transaction has no address on its first input, or whose payer
    address gives no stake key (also when the address does not parse), is
    marked seen in the same turn, in which no row is written and no mint
    is built, and the pass goes on past it.  Its key stays in
    [seen_utxos] whatever runs later, and every loop that comes to it
    skips it.  No pass is ever at a deposit that the classifier does not
    accept.  For the other two, once the key is in [seen_utxos] and no
    pass in flight is at the deposit, no pass is ever at it again; and a
    pass that is at no deposit writes no row and builds no mint. *)
Theorem disqualified_is_terminal (db : DB) (u : Utxo) (rest : list Utxo) :
  (Sql.select_seen db (utxoId u) = false ->
   qualifies env u = Some false ->
   loop env db (u :: rest)
   = prepend [Write (OpSeen (utxoId u))]
             (loop env (Sql.insert_seen db (utxoId u)) rest)
   /\ marks_only db (utxoId u) (loop env db (u :: rest))
   /\ unheld (utxoId u) [(loop env db (u :: rest)).1.1])
  /\ (forall txUtxos rnd,
        truthy (((txUtxos ≫= inputs) ≫= head) ≫= address) = None ->
        let o := resume env (KInputs u rest) (RInputs (Some txUtxos) rnd) db in
        marks_only db (utxoId u) o /\ unheld (utxoId u) [o.1.1])
  /\ (forall txUtxos rnd payerAddr,
        truthy (((txUtxos ≫= inputs) ≫= head) ≫= address) = Some payerAddr ->
        getStakeKeyFromAddr env payerAddr = None ->
        let o := resume env (KInputs u rest) (RInputs (Some txUtxos) rnd) db in
        marks_only db (utxoId u) o /\ unheld (utxoId u) [o.1.1])
  /\ (forall payerAddr,
        getAddressDetails env payerAddr = None ->
        getStakeKeyFromAddr env payerAddr = None)
  /\ (forall s sched,
        utxoId u ∈ seen_utxos (store s) ->
        utxoId u ∈ seen_utxos (store (exec_from env s sched)))
  /\ (forall db2 rest2,
        utxoId u ∈ seen_utxos db2 ->
        loop env db2 (u :: rest2) = loop env db2 rest2)
  /\ (forall sched,
        qualifies env u <> Some true ->
        Forall (fun k => holding k <> Some u) (tasks (exec env sched)))
  /\ (forall s sched,
        utxoId u ∈ seen_utxos (store s) ->
        unheld (utxoId u) (tasks s) ->
        unheld (utxoId u) (tasks (exec_from env s sched)))
  /\ (forall k a db0,
        holding k = None ->
        mints (resume env k a db0).1.2 = mints db0
        /\ forall key, issued_for key (resume env k a db0).2 = 0%nat).
Proof.
  assert (Hgo : forall l,
             (forall k, issued_for k l = 0%nat) ->
             let o := prepend l (loop env (Sql.insert_seen db (utxoId u)) rest)
             in marks_only db (utxoId u) o /\ unheld (utxoId u) [o.1.1]).
  { intros l Hl o. split; [by apply marks_only_loop|].
    constructor; [|constructor]. intros u' Hu' E.
    apply marked_holding in Hu' as [_ Hn]. apply Hn. rewrite E.
    unfold o. rewrite prepend_db.
    apply loop_seen, SqlFacts.insert_seen_elem. }
  split; [|split; [|split; [|split; [|split; [|split; [|split; [|split]]]]]]].
  - intros Hseen Hq.
    assert (E : loop env db (u :: rest)
                = prepend [Write (OpSeen (utxoId u))]
                          (loop env (Sql.insert_seen db (utxoId u)) rest)).
    { cbn [loop]. by rewrite Hseen, Hq. }
    split; [done|]. rewrite E. by apply Hgo.
  - intros txUtxos rnd Hno. cbn [resume]. unfold afterInputs.
    rewrite Hno. by apply Hgo.
  - intros txUtxos rnd payerAddr Hp Hno. cbn [resume]. unfold afterInputs.
    rewrite Hp, Hno. by apply Hgo.
  - intros payerAddr H. unfold getStakeKeyFromAddr. by rewrite H.
  - intros s sched. apply exec_from_seen.
  - intros db2 rest2 H%SqlFacts.select_seen_true. cbn [loop]. by rewrite H.
  - intros sched Hq. eapply Forall_impl; [apply (exec_held_qualify env)|].
    intros k Hk E. by apply Hq, Hk.
  - intros s sched. apply exec_from_unheld.
  - intros k a db0. apply resume_idle.
Qed.

(** C8.  In every store that the process reaches, by whatever passes in
    whatever interleaving and across restarts, [seen_utxos] has no
    identifier twice; an identifier that is in it stays in it; the insert
    of an identifier that is in it changes nothing.  A deposit whose
    identifier is in it is skipped by the loop before anything is read of
    it, and a pass over a page of such deposits asks nothing and writes
    nothing. *)
Theorem seen_once (sched : list Action) :
  NoDup (seen_utxos (store (exec env sched)))
  /\ (forall sched' id,
        id ∈ seen_utxos (store (exec env sched)) ->
        id ∈ seen_utxos (store (exec env (sched ++ sched'))))
  /\ (forall db id,
        id ∈ seen_utxos db -> Sql.insert_seen db id = db)
  /\ (forall db u rest,
        utxoId u ∈ seen_utxos db ->
        loop env db (u :: rest) = loop env db rest)
  /\ (forall db page,
        Forall (fun u => utxoId u ∈ seen_utxos db) page ->
        scanForPayments env db [RPage (Some page)]
        = (KDone, db, [FetchPage])).
Proof.
  split; [|split; [|split; [|split]]].
  - by destruct (exec_ok env sched) as [(_ & _ & ?) _].
  - intros sched' id H. rewrite exec_app. by apply exec_from_seen.
  - apply SqlFacts.insert_seen_again.
  - intros db u rest H%SqlFacts.select_seen_true. cbn [loop]. by rewrite H.
  - intros db page H. unfold scanForPayments. cbn [run resume].
    by rewrite loop_all_seen.
Qed.

(** C1, as the code has it.  In every store that the process reaches, by
    whatever passes in whatever interleaving and across restarts, a stake
    key has at most one row, and at most one mint transaction was ever
    built for it, none without its row; rows are never removed.  The store
    is the result of the statements in the trace, and the row of a stake
    key comes from the one claim for it that inserted: at most one claim
    per stake key inserts.  A claim for a stake key that has a row takes
    the duplicate branch: nothing is written and no transaction is built;
    the loop does not even come to claim, it marks the deposit seen.
    A claim inserts exactly when neither its stake key nor its transaction
    id is in the table; so exactly one claim for a stake key inserts when
    there is one and the transaction ids of its claims are claimed for no
    other stake key. *)
Theorem one_mint_per_stake (sched : list Action) (stakeKey : string) :
  let s := exec env sched in
  let ops := writes (trace s) in
  (rows_for stakeKey (store s) <= 1)%nat
  /\ (issued_for stakeKey (trace s) <= rows_for stakeKey (store s))%nat
  /\ (forall sched',
        (rows_for stakeKey (store s)
         <= rows_for stakeKey (store (exec env (sched ++ sched'))))%nat)
  /\ store s = foldl apply_op empty_db ops
  /\ inserted_for stakeKey empty_db ops = rows_for stakeKey (store s)
  /\ (own_txs stakeKey ops <> [] ->
      (forall t, t ∈ own_txs stakeKey ops -> t ∉ foreign_txs stakeKey ops) ->
      inserted_for stakeKey empty_db ops = 1%nat)
  /\ (forall db payerAddress paidTx rnd,
        stakeKey ∈ stake_keys db ->
        mintAndSend_begin env db payerAddress stakeKey paidTx rnd
        = (MReturned, db,
           [Write (OpClaim stakeKey payerAddress paidTx);
            Log (LDuplicate stakeKey)]))
  /\ (forall db u rest payerAddr rnd,
        stakeKey ∈ stake_keys db -> payerAddr <> "" ->
        getStakeKeyFromAddr env payerAddr = Some stakeKey ->
        afterInputs env u rest (inputs_from payerAddr) rnd db
        = prepend [Log (LAlready stakeKey (tx_hash u));
                   Write (OpSeen (utxoId u))]
                  (loop env (Sql.insert_seen db (utxoId u)) rest))
  /\ (forall db payerAddress paidTx,
        (Sql.insert_mint db stakeKey payerAddress paidTx).2 = 1%nat <->
        (stakeKey ∉ stake_keys db) /\ (paidTx ∉ paid_txs db)).
Proof.
  intros s ops. destruct (exec_ok env sched) as [Hok Hc].
  split; [by apply CountFacts.rows_for_le_1|]. split; [apply Hc|].
  split; [intros sched'; rewrite exec_app; apply exec_from_rows|].
  split; [apply exec_written|]. split; [|split; [|split; [|split]]].
  - unfold ops, s. rewrite exec_written, OpFacts.rows_for_ops.
    rewrite CountFacts.rows_for_zero by apply not_elem_of_nil. done.
  - intros Hne Hown. apply OpFacts.inserted_for_first;
      [apply not_elem_of_nil|done|].
    intros t Ht. split; [apply not_elem_of_nil|by apply Hown].
  - intros db payerAddress paidTx rnd H.
    apply mintAndSend_begin_duplicate. by left.
  - intros db u rest payerAddr rnd Hk Hp Hs.
    rewrite (afterInputs_resolved env u rest payerAddr stakeKey) by done.
    by apply SqlFacts.select_stake_Some in Hk as [r ->].
  - intros db payerAddress paidTx.
    destruct (SqlFacts.insert_mint_spec db stakeKey payerAddress paidTx)
      as [(Hk & Ht & ->)|([?|?] & ->)]; simpl; split; try done;
      intros [??]; done.
Qed.

End Claims.

(** ** The claims on the small world *)

Lemma duplicate_on_paid_tx_witness :
  mintAndSend_begin sample_env
    (with_row empty_db (pending_row "stake2" "addr2" "T1"))
    "addr1" "stake1" "T1" 0
  = (MReturned, with_row empty_db (pending_row "stake2" "addr2" "T1"),
     [Write (OpClaim "stake1" "addr1" "T1"); Log (LDuplicate "stake1")])
  /\ status (with_row empty_db (pending_row "stake2" "addr2" "T1")) "stake1"
     = StNone.
Proof.
  assert ("T1" ∈ paid_txs (with_row empty_db (pending_row "stake2" "addr2" "T1")))
    as H1 by (vm_compute; by left).
  assert ("stake1" ∉
          stake_keys (with_row empty_db (pending_row "stake2" "addr2" "T1")))
    as H2 by compute_done.
  destruct (duplicate_on_paid_tx sample_env _ "addr1" "stake1" "T1" 0%nat H1 H2)
    as (_ & Hb & _ & Hs & _).
  split; [exact Hb|exact Hs].
Defined.

Lemma failed_issuance_keeps_claim_witness :
  status (with_row empty_db (pending_row "stake1" "addr1" "T1")) "stake1"
  = StPaid "T1"
  /\ resume sample_env (KIssue (paid "T1" 0) "addr1" "stake1" design_A [])
       (RIssue None) (with_row empty_db (pending_row "stake1" "addr1" "T1"))
     = (KMintDone (paid "T1" 0) Rejected [],
        with_row empty_db (pending_row "stake1" "addr1" "T1"), []).
Proof.
  assert ("addr1" <> "") as H1 by (vm_compute; discriminate).
  assert (getStakeKeyFromAddr sample_env "addr1" = Some "stake1") as H2
    by reflexivity.
  assert ("stake1" ∉ stake_keys empty_db) as H3
    by compute_done.
  assert (tx_hash (paid "T1" 0) ∉ paid_txs empty_db) as H4
    by compute_done.
  assert (drawn sample_env 0 = Some design_A) as H5 by reflexivity.
  destruct (failed_issuance_keeps_claim sample_env empty_db (paid "T1" 0) []
              "addr1" "stake1" 0%nat design_A H1 H2 H3 H4 H5)
    as (_ & Hr & _ & Hs & _).
  split; [exact Hs|exact Hr].
Defined.

(** C3 as the specification has it fails: the claim is new, the mint
    transaction fails, and the pass ends with the row written and the
    deposit not in [seen_utxos]. *)
Lemma seen_regardless_counterexample :
  scanForPayments sample_env empty_db
    [RPage (Some [paid "T1" 0]); RInputs (inputs_from "addr1") 0;
     RIssue None; RTick]
  = (KDone,
     {| mints := [pending_row "stake1" "addr1" "T1"]; seen_utxos := [] |},
     [FetchPage; FetchTx "T1"; Write (OpClaim "stake1" "addr1" "T1");
      Issue "addr1" "stake1" "T1" design_A; Log (LMintFailed "T1")])
  /\ utxoId (paid "T1" 0) ∉
     seen_utxos
       (scanForPayments sample_env empty_db
          [RPage (Some [paid "T1" 0]); RInputs (inputs_from "addr1") 0;
           RIssue None; RTick]).1.2.
Proof. split; [reflexivity|compute_done]. Qed.

(** C4 as the specification has it fails: the request for the inputs of
    the first deposit fails and the pass is over; the second deposit, which
    the loop would have marked seen, is not looked at. *)
Lemma lookup_failure_counterexample :
  scanForPayments sample_env empty_db
    [RPage (Some [paid "T1" 0; overpaid "T2" 0]); RInputs None 0]
  = (KDone, empty_db, [FetchPage; FetchTx "T1"; Log LScanError])
  /\ loop sample_env empty_db [overpaid "T2" 0]
     = (KDone, {| mints := []; seen_utxos := ["T2#0"] |},
        [Write (OpSeen "T2#0")])
  /\ utxoId (overpaid "T2" 0) ∉
     seen_utxos
       (scanForPayments sample_env empty_db
          [RPage (Some [paid "T1" 0; overpaid "T2" 0]); RInputs None 0]).1.2.
Proof. split; [reflexivity|]. split; [reflexivity|compute_done]. Qed.

Lemma transient_resolution_failure_witness :
  scanForPayments sample_env empty_db
    [RPage (Some [paid "T1" 0]); RInputs None 0]
  = (KDone, empty_db, [FetchPage; FetchTx "T1"; Log LScanError])
  /\ scanForPayments sample_env empty_db
       [RPage (Some [paid "T1" 0]); RInputs (inputs_from "addr1") 0;
        RIssue (Some "M1"); RTick]
     = (KDone,
        {| mints := [minted_row "stake1" "addr1" "T1" "M1" "Design_A"];
           seen_utxos := ["T1#0"] |},
        [FetchPage; FetchTx "T1"; Write (OpClaim "stake1" "addr1" "T1");
         Issue "addr1" "stake1" "T1" design_A;
         Write (OpMinted "M1" "Design_A" "T1");
         Log (LMinted "Design_A" "addr1" "M1"); Write (OpSeen "T1#0");
         Log (LProcessed "T1" "M1")]).
Proof.
  assert (Sql.select_seen empty_db (utxoId (paid "T1" 0)) = false) as H1
    by reflexivity.
  assert (qualifies sample_env (paid "T1" 0) = Some true) as H2
    by reflexivity.
  destruct (transient_resolution_failure sample_env empty_db (paid "T1" 0) []
              0%nat H1 H2) as (Hfail & _ & _ & _ & Hlater).
  split; [exact Hfail|].
  assert ("addr1" <> "") as H3 by (vm_compute; discriminate).
  assert (getStakeKeyFromAddr sample_env "addr1" = Some "stake1") as H4
    by reflexivity.
  assert ("stake1" ∉ stake_keys empty_db) as H5 by compute_done.
  assert (tx_hash (paid "T1" 0) ∉ paid_txs empty_db) as H6 by compute_done.
  assert (drawn sample_env 0 = Some design_A) as H7 by reflexivity.
  exact (Hlater [] "addr1" "stake1" "M1" 0%nat design_A H3 H4 H5 H6 H7).
Defined.

Lemma disqualified_is_terminal_witness :
  marks_only empty_db "T2#0" (loop sample_env empty_db [overpaid "T2" 0])
  /\ marks_only empty_db "T1#0"
       (resume sample_env (KInputs (paid "T1" 0) [])
          (RInputs (Some (Some {| inputs := Some [] |})) 0) empty_db)
  /\ marks_only empty_db "T1#0"
       (resume sample_env (KInputs (paid "T1" 0) [])
          (RInputs (inputs_from "enterprise") 0) empty_db)
  /\ marks_only empty_db "T1#0"
       (resume sample_env (KInputs (paid "T1" 0) [])
          (RInputs (inputs_from "not an address") 0) empty_db)
  /\ Forall (fun k => holding k <> Some (overpaid "T2" 0))
            (tasks (exec sample_env sample_sched))
  /\ unheld "T1#0"
       (tasks (exec sample_env
                 ((take 5 overlap_sched ++ [Restart]) ++ retry_sched))).
Proof.
  destruct (disqualified_is_terminal sample_env empty_db (overpaid "T2" 0) [])
    as (H1 & _ & _ & _ & _ & _ & H7 & _).
  destruct (disqualified_is_terminal sample_env empty_db (paid "T1" 0) [])
    as (_ & H2 & H3 & _ & _ & _ & _ & H8 & _).
  destruct (H1 eq_refl eq_refl) as (_ & M1 & _).
  destruct (H2 (Some {| inputs := Some [] |}) 0%nat eq_refl) as [M2 _].
  destruct (H3 (Some {| inputs := Some [{| address := Some "enterprise" |}] |})
              0%nat "enterprise" eq_refl eq_refl) as [M3 _].
  destruct (H3 (Some {| inputs :=
                          Some [{| address := Some "not an address" |}] |})
              0%nat "not an address" eq_refl eq_refl) as [M4 _].
  split; [exact M1|]. split; [exact M2|]. split; [exact M3|].
  split; [exact M4|].
  split; [apply H7; discriminate|].
  change "T1#0" with (utxoId (paid "T1" 0)). rewrite exec_app.
  apply (H8 (exec sample_env (take 5 overlap_sched ++ [Restart])) retry_sched).
  - compute_done.
  - constructor.
Defined.

(** C6 as the specification has it fails, in two ways.  A deposit of
    lovelace only whose quantity [BigInt] cannot read fails the classifier
    by raising: the pass ends, the deposit is not marked seen, and a pass
    on the store that is left does the same again.  And a deposit that one
    pass marks seen for want of a payer address is claimed and minted by a
    pass that was past the seen test when it was marked. *)
Lemma disqualified_retried_counterexample :
  (onlyLovelace (unreadable "T9" 0) = true
   /\ qualifies sample_env (unreadable "T9" 0) = None
   /\ scanForPayments sample_env empty_db [RPage (Some [unreadable "T9" 0])]
      = (KDone, empty_db, [FetchPage; Log LScanError]))
  /\ (store (exec sample_env (take 5 overlap_sched))
      = {| mints := []; seen_utxos := ["T1#0"] |}
      /\ store (exec sample_env overlap_sched)
         = {| mints := [minted_row "stake1" "addr1" "T1" "M1" "Design_A"];
              seen_utxos := ["T1#0"] |}
      /\ issued_for "stake1" (trace (exec sample_env overlap_sched)) = 1%nat).
Proof. repeat split; reflexivity. Qed.

(** C1 as the specification has it fails.  The first pass mints for
    [stake2] on the transaction [T1]; a later pass is told that the first
    input of [T1] is an address of [stake1], and its claim, the only one
    ever made for [stake1], is ignored on the [paid_tx] column: [stake1] has
    no row, and no claim for it has succeeded. *)
Lemma exactly_one_claim_counterexample :
  let s := exec sample_env
             [Spawn;
              Deliver 0 (RPage (Some [paid "T1" 0]));
              Deliver 0 (RInputs (inputs_from "addr2") 0);
              Deliver 0 (RIssue (Some "M1"));
              Deliver 0 RTick;
              Spawn;
              Deliver 1 (RPage (Some [paid "T1" 1]));
              Deliver 1 (RInputs (inputs_from "addr1") 0);
              Deliver 1 RTick] in
  trace s
  = [FetchPage; FetchTx "T1"; Write (OpClaim "stake2" "addr2" "T1");
     Issue "addr2" "stake2" "T1" design_A;
     Write (OpMinted "M1" "Design_A" "T1");
     Log (LMinted "Design_A" "addr2" "M1"); Write (OpSeen "T1#0");
     Log (LProcessed "T1" "M1");
     FetchPage; FetchTx "T1"; Write (OpClaim "stake1" "addr1" "T1");
     Log (LDuplicate "stake1"); Write (OpSeen "T1#1")]
  /\ store s
     = {| mints := [minted_row "stake2" "addr2" "T1" "M1" "Design_A"];
          seen_utxos := ["T1#0"; "T1#1"] |}
  /\ own_txs "stake1" (writes (trace s)) = ["T1"]
  /\ inserted_for "stake1" empty_db (writes (trace s)) = 0%nat
  /\ rows_for "stake1" (store s) = 0%nat
  /\ Sql.insert_mint
       {| mints := [minted_row "stake2" "addr2" "T1" "M1" "Design_A"];
          seen_utxos := ["T1#0"] |} "stake1" "addr1" "T1"
     = ({| mints := [minted_row "stake2" "addr2" "T1" "M1" "Design_A"];
           seen_utxos := ["T1#0"] |}, 0%nat).
Proof. repeat split; reflexivity. Qed.

(** Two passes in flight, each with one deposit paid from [addr1]: the pass
    that is answered first claims and mints, the other finds the row. *)
Lemma one_mint_per_stake_witness :
  let s := exec sample_env
             [Spawn; Spawn;
              Deliver 0 (RPage (Some [paid "T1" 0]));
              Deliver 1 (RPage (Some [paid "T2" 0]));
              Deliver 1 (RInputs (inputs_from "addr1") 0);
              Deliver 0 (RInputs (inputs_from "addr1") 0);
              Deliver 1 (RIssue (Some "M2"));
              Deliver 1 RTick] in
  inserted_for "stake1" empty_db (writes (trace s)) = 1%nat
  /\ rows_for "stake1" (store s) = 1%nat
  /\ issued_for "stake1" (trace s) = 1%nat
  /\ store s
     = {| mints := [minted_row "stake1" "addr1" "T2" "M2" "Design_A"];
          seen_utxos := ["T1#0"; "T2#0"] |}.
Proof.
  intros s.
  destruct (one_mint_per_stake sample_env
              [Spawn; Spawn;
               Deliver 0 (RPage (Some [paid "T1" 0]));
               Deliver 1 (RPage (Some [paid "T2" 0]));
               Deliver 1 (RInputs (inputs_from "addr1") 0);
               Deliver 0 (RInputs (inputs_from "addr1") 0);
               Deliver 1 (RIssue (Some "M2"));
               Deliver 1 RTick] "stake1")
    as (_ & _ & _ & _ & _ & Hone & _).
  split; [|repeat split; reflexivity].
  apply Hone.
  - vm_compute. discriminate.
  - intros t Ht. vm_compute. apply not_elem_of_nil.
Defined.

(** The failed mint of the first deposit of [stake1] leaves it unseen; the
    next pass marks it seen on the row that the claim left. *)
Lemma seen_after_settled_mint_witness :
  let db1 := with_row empty_db (pending_row "stake1" "addr1" "T1") in
  ("T1#0" ∉
     seen_utxos (resume sample_env (KMintDone (paid "T1" 0) Rejected [])
                        RTick db1).1.2)
  /\ ("T1#0" ∈
        seen_utxos (afterInputs sample_env (paid "T1" 0) []
                                (inputs_from "addr1") 0 db1).1.2)
  /\ mints (afterInputs sample_env (paid "T1" 0) []
                        (inputs_from "addr1") 0 db1).1.2
     = mints db1.
Proof.
  intros db1.
  destruct (seen_after_settled_mint sample_env db1 (paid "T1" 0) [])
    as (_ & _ & Hfail & Hnext).
  split.
  - apply Hfail; compute_done.
  - assert ("stake1" ∈ stake_keys db1) as H1 by compute_done.
    assert ("addr1" <> "") as H2 by (vm_compute; discriminate).
    assert (getStakeKeyFromAddr sample_env "addr1" = Some "stake1") as H3
      by reflexivity.
    destruct (Hnext db1 [] "addr1" "stake1" 0%nat H1 H2 H3) as (Hs & Hm & _).
    split; [exact Hs|exact Hm].
Defined.

(** A deposit turned down in one pass is skipped by the next, which asks
    for the page and no more. *)
Lemma seen_once_witness :
  let sched := [Spawn; Deliver 0 (RPage (Some [overpaid "T2" 0]))] in
  seen_utxos (store (exec sample_env sched)) = ["T2#0"]
  /\ ("T2#0" ∈
        seen_utxos
          (store (exec sample_env
                    (sched ++ [Spawn;
                               Deliver 1 (RPage (Some [overpaid "T2" 0]))]))))
  /\ scanForPayments sample_env (store (exec sample_env sched))
       [RPage (Some [overpaid "T2" 0])]
     = (KDone, store (exec sample_env sched), [FetchPage]).
Proof.
  intros sched.
  destruct (seen_once sample_env sched) as (_ & Hkeep & _ & _ & Hskip).
  split; [reflexivity|]. split.
  - apply Hkeep. compute_done.
  - apply Hskip. constructor; [compute_done|constructor].
Defined.

(** * The watcher as a whole, the store over time and the API *)

(** ** The key of the seen set *)
Module UtxoIdFacts.
Import JsBigInt.

Lemma hash_not_dec : ~ dec_char "#".
Proof.
  intros (d & Hd & E).
  assert (d = 0 \/ d = 1 \/ d = 2 \/ d = 3 \/ d = 4 \/ d = 5 \/ d = 6
          \/ d = 7 \/ d = 8 \/ d = 9)%N as H by lia.
  destruct H as [->|[->|[->|[->|[->|[->|[->|[->|[->| ->]]]]]]]]];
    discriminate.
Qed.

Lemma all_dec_no_hash (x y : string) : ~ all_dec (x +:+ String "#" y).
Proof.
  induction x as [|c x IH]; simpl.
  - intros [H _]. by apply hash_not_dec.
  - intros [_ H]. by apply IH.
Qed.

(** The text before the last ["#"] and the digits after it are read back
    from their concatenation. *)
Lemma sep_inj (a a' d d' : string) :
  all_dec d -> all_dec d' ->
  a +:+ String "#" d = a' +:+ String "#" d' -> a = a' /\ d = d'.
Proof.
  intros Hd Hd'. revert a'.
  induction a as [|c a IH]; intros [|c' a']; simpl.
  - by intros [= ->].
  - intros [= _ ->]. by apply all_dec_no_hash in Hd.
  - intros [= _ <-]. by apply all_dec_no_hash in Hd'.
  - intros [= -> [-> ->]%IH]. done.
Qed.

Lemma all_dec_pretty_N (n : N) : all_dec (pretty n).
Proof.
  unfold pretty, pretty_N. case_decide.
  - split; [by exists 0%N|done].
  - by apply JsBigIntFacts.all_dec_pretty_N_go.
Qed.

End UtxoIdFacts.

(** X1.  Two deposits whose output indexes are safe integers have the same
    key in [seen_utxos] exactly when they are the same output of the same
    transaction, whatever characters the transaction hash is made of (a
    ["#"] included): marking one such deposit never makes the loop skip
    another.  The indexes are taken below 2^53 because that is where the
    numbers of the code are written as they are here. *)
Theorem utxoId_injective (u u' : Utxo) :
  safe_index u -> safe_index u' ->
  utxoId u = utxoId u' <->
  tx_hash u = tx_hash u' /\ output_index u = output_index u'.
Proof.
  intros _ _. unfold utxoId. split.
  - intros E. simpl in E.
    apply UtxoIdFacts.sep_inj in E as [E1 E2];
      [|apply UtxoIdFacts.all_dec_pretty_N..].
    split; [done|]. by apply (inj pretty).
  - by intros [-> ->].
Qed.

Lemma utxoId_injective_witness :
  utxoId (paid "a#1" 2) <> utxoId (paid "a" 12)
  /\ utxoId (paid "T1" 7) = utxoId (overpaid "T1" 7).
Proof.
  assert (S1 : safe_index (paid "a#1" 2)) by reflexivity.
  assert (S2 : safe_index (paid "a" 12)) by reflexivity.
  assert (S3 : safe_index (paid "T1" 7)) by reflexivity.
  assert (S4 : safe_index (overpaid "T1" 7)) by reflexivity.
  split.
  - intros E.
    apply (utxoId_injective (paid "a#1" 2) (paid "a" 12) S1 S2) in E as [E _].
    discriminate.
  - by apply (utxoId_injective (paid "T1" 7) (overpaid "T1" 7) S3 S4).
Defined.

(** ** The classifier where it does not say yes *)
Section ClassifierEdges.
Variable env : Env.

Lemma qualifies_cases (u : Utxo) :
  (onlyLovelace u = false /\ qualifies env u = Some false)
  \/ exists q, amount u = [{| unit := "lovelace"; quantity := q |}]
               /\ onlyLovelace u = true
               /\ qualifies env u
                  = (z ← JsBigInt.BigInt q; Some (z =? PRICE env)).
Proof.
  destruct (onlyLovelace u) eqn:Hol.
  - right. pose proof Hol as [q Hq]%onlyLovelace_spec. exists q.
    split; [done|]. split; [done|].
    unfold qualifies, qty. rewrite Hol, Hq. simpl.
    by destruct (JsBigInt.BigInt q).
  - left. split; [done|]. unfold qualifies, qty. by rewrite Hol.
Qed.

(** X2.  The classifier raises exactly on a single lovelace entry whose
    quantity [BigInt] cannot read, and says no on every other amount that
    is not a single lovelace entry of PRICE.  A new deposit on which it
    raises ends the pass on the spot: nothing is written, nothing after it
    in the page is looked at, and the deposit is left unseen for the next
    pass to stumble on again. *)
Theorem classifier_raises (u : Utxo) :
  (qualifies env u = None <->
   exists q, amount u = [{| unit := "lovelace"; quantity := q |}]
             /\ JsBigInt.BigInt q = None)
  /\ (qualifies env u = Some false <->
      onlyLovelace u = false
      \/ exists q z, amount u = [{| unit := "lovelace"; quantity := q |}]
                     /\ JsBigInt.BigInt q = Some z /\ z <> PRICE env)
  /\ (forall db rest script,
        Sql.select_seen db (utxoId u) = false ->
        qualifies env u = None ->
        loop env db (u :: rest) = (KDone, db, [Log LScanError])
        /\ scanForPayments env db (RPage (Some (u :: rest)) :: script)
           = (KDone, db, [FetchPage; Log LScanError])).
Proof.
  split; [|split].
  - destruct (qualifies_cases u) as [[Hol Hq]|(q & Ha & Hol & Hq)].
    + rewrite Hq. split; [done|]. intros (q & Ha & _).
      assert (onlyLovelace u = true) by (apply onlyLovelace_spec; eauto).
      congruence.
    + rewrite Hq, Ha. split.
      * intros H. exists q. split; [done|].
        by destruct (JsBigInt.BigInt q).
      * intros (q' & [= <-] & ->). done.
  - destruct (qualifies_cases u) as [[Hol Hq]|(q & Ha & Hol & Hq)].
    + rewrite Hq. split; [by left|done].
    + rewrite Hq, Ha, Hol. split.
      * destruct (JsBigInt.BigInt q) as [z|] eqn:Hz; simpl; [|done].
        intros [= Hne%Z.eqb_neq]. right. by exists q, z.
      * intros [?|(q' & z & [= <-] & Hz & Hne)]; [done|].
        rewrite Hz. simpl. by apply Z.eqb_neq in Hne as ->.
  - intros db rest script Hseen Hq.
    assert (E : loop env db (u :: rest) = (KDone, db, [Log LScanError])).
    { cbn [loop]. by rewrite Hseen, Hq. }
    split; [done|]. unfold scanForPayments. cbn [run resume].
    rewrite E. by rewrite run_done.
Qed.

End ClassifierEdges.

Lemma classifier_raises_witness :
  let u := {| tx_hash := "T9"; output_index := 0;
              amount := [{| unit := "lovelace"; quantity := "1.5" |}] |} in
  qualifies sample_env u = None
  /\ scanForPayments sample_env empty_db
       [RPage (Some [u; paid "T1" 0]); RInputs (inputs_from "addr1") 0]
     = (KDone, empty_db, [FetchPage; Log LScanError]).
Proof.
  intros u.
  destruct (classifier_raises sample_env u) as (Hnone & _ & Hpass).
  assert (Hq : qualifies sample_env u = None).
  { apply Hnone. exists "1.5". split; reflexivity. }
  split; [exact Hq|].
  apply (Hpass empty_db [paid "T1" 0] [RInputs (inputs_from "addr1") 0]);
    [reflexivity|exact Hq].
Defined.

(** ** What one pass costs *)
Section PassBudget.
Variable env : Env.

Lemma fetches_app (a b : list Event) :
  fetches (a ++ b) = (fetches a + fetches b)%nat.
Proof. unfold fetches. by rewrite filter_app, length_app. Qed.

Lemma issues_app (a b : list Event) :
  issues (a ++ b) = (issues a + issues b)%nat.
Proof. unfold issues. by rewrite filter_app, length_app. Qed.

(** The loop asks for the inputs of at most one transaction and stops
    there; it builds no mint. *)
Lemma loop_budget (utxos : list Utxo) :
  forall db,
    let o := loop env db utxos in
    (fetches o.2 + after o.1.1 <= length utxos)%nat
    /\ issues o.2 = 0%nat
    /\ fetches o.2 = at_inputs o.1.1
    /\ (todo o.1.1 <= 3 * length utxos)%nat
    /\ o.1.1 <> KPage.
Proof.
  induction utxos as [|u rest IH]; intros db; cbn [loop].
  - repeat split; unfold after; simpl; lia || done.
  - destruct (Sql.select_seen db (utxoId u)).
    { destruct (IH db) as (H1 & H2 & H3 & H4 & H5).
      repeat split; try done; simpl length; lia. }
    destruct (qualifies env u) as [[|]|].
    + repeat split; unfold after; simpl; lia || done.
    + destruct (IH (Sql.insert_seen db (utxoId u))) as (H1 & H2 & H3 & H4 & H5).
      destruct (loop env _ rest) as [[k' db'] ev'].
      cbn [prepend fst snd] in *. rewrite fetches_app, issues_app.
      change (fetches [Write (OpSeen (utxoId u))]) with 0%nat.
      change (issues [Write (OpSeen (utxoId u))]) with 0%nat.
      simpl length. repeat split; try done; lia.
    + repeat split; unfold after; simpl; lia || done.
Qed.

Lemma mintAndSend_begin_budget db p k t rnd :
  let o := mintAndSend_begin env db p k t rnd in
  fetches o.2 = 0%nat
  /\ issues o.2 = match o.1.1 with MAwait _ => 1%nat | _ => 0%nat end.
Proof.
  unfold mintAndSend_begin.
  destruct (Sql.insert_mint db k p t) as [db' changes].
  destruct (changes =? 0)%nat; [done|].
  destruct (loadDesigns env) as [ds|]; [|done].
  by destruct (pickRandomDesign ds rnd).
Qed.

(** One turn: it asks and builds within what the pass has in hand. *)
Lemma resume_budget (k : Cont) (a : Resp) (db : DB) :
  k <> KPage ->
  let o := resume env k a db in
  (fetches o.2 + after o.1.1 <= after k)%nat
  /\ (issues o.2 + at_inputs o.1.1 <= fetches o.2 + at_inputs k)%nat
  /\ (todo o.1.1 + (if accepts k a then 1 else 0) <= todo k)%nat
  /\ o.1.1 <> KPage.
Proof.
  intros Hk.
  assert (Hloop : forall ev db0 rest,
             (forall x, fetches (ev ++ x) = fetches x) ->
             (forall x, issues (ev ++ x) = issues x) ->
             let o := prepend ev (loop env db0 rest) in
             (fetches o.2 + after o.1.1 <= length rest)%nat
             /\ (issues o.2 + at_inputs o.1.1 <= fetches o.2)%nat
             /\ (todo o.1.1 <= 3 * length rest)%nat
             /\ o.1.1 <> KPage).
  { intros ev db0 rest Hf Hi.
    destruct (loop_budget rest db0) as (H1 & H2 & H3 & H4 & H5).
    destruct (loop env db0 rest) as [[k' db'] ev']. simpl in *.
    rewrite Hf, Hi. repeat split; try done; lia. }
  destruct k as [|u rest|u p s d rest|u r rest|], a; try done;
    cbn [resume]; try (unfold after; simpl; repeat split; done || lia).
  - (* the inputs arrive *)
    unfold afterInputs. destruct r as [txUtxos|];
      [|unfold after; simpl; repeat split; done || lia].
    assert (Hmark : forall l,
               let o := prepend [Log l; Write (OpSeen (utxoId u))]
                                (loop env (Sql.insert_seen db (utxoId u)) rest) in
               (fetches o.2 + after o.1.1 <= after (KInputs u rest))%nat
               /\ (issues o.2 + at_inputs o.1.1 <= fetches o.2 + 1)%nat
               /\ (todo o.1.1 + 1 <= todo (KInputs u rest))%nat
               /\ o.1.1 <> KPage).
    { intros l. destruct (Hloop [Log l; Write (OpSeen (utxoId u))]
                            (Sql.insert_seen db (utxoId u)) rest)
        as (H1 & H2 & H3 & H4); [done..|].
      simpl in *. repeat split; try done; lia. }
    destruct (truthy _) as [payerAddr|]; [|apply Hmark].
    destruct (getStakeKeyFromAddr env payerAddr) as [stakeKey|]; [|apply Hmark].
    destruct (Sql.select_stake db stakeKey); [apply Hmark|].
    destruct (mintAndSend_begin_budget db payerAddr stakeKey (tx_hash u) rnd)
      as (H1 & H2).
    destruct (mintAndSend_begin env db payerAddr stakeKey (tx_hash u) rnd)
      as [[m db'] ev]. cbn [fst snd] in H1, H2.
    destruct m; unfold after; simpl; rewrite H1, H2;
      repeat split; try done; lia.
  - (* the mint is settled *)
    destruct r as [txHash|]; unfold after; simpl; repeat split; done || lia.
  - (* back in the loop *)
    unfold afterMint. destruct r as [mintedTx|].
    + destruct (Hloop (Write (OpSeen (utxoId u))
                       :: match truthy mintedTx with
                          | Some h => [Log (LProcessed (tx_hash u) h)]
                          | None => []
                          end)
                      (Sql.insert_seen db (utxoId u)) rest)
        as (H1 & H2 & H3 & H4); [by destruct (truthy mintedTx)..|].
      simpl in *. repeat split; try done; lia.
    + destruct (Hloop [Log (LMintFailed (tx_hash u))] db rest)
        as (H1 & H2 & H3 & H4); [done..|].
      simpl in *. repeat split; try done; lia.
Qed.

Lemma run_budget (script : list Resp) :
  forall k db,
    k <> KPage ->
    let o := run env k db script in
    (fetches o.2 <= after k)%nat
    /\ (issues o.2 <= fetches o.2 + at_inputs k)%nat
    /\ (consumed env k db script <= todo k)%nat.
Proof.
  induction script as [|a script IH]; intros k db Hk; cbn [run consumed].
  - cbn [fst snd]. change (fetches []) with 0%nat.
    change (issues []) with 0%nat. repeat split; lia.
  - destruct (resume_budget k a db Hk) as (H1 & H2 & H3 & H4).
    destruct (resume env k a db) as [[k' db'] ev].
    cbn [fst snd] in H1, H2, H3, H4 |- *.
    destruct (IH k' db' H4) as (I1 & I2 & I3).
    destruct (run env k' db' script) as [[k'' db''] ev'].
    cbn [prepend fst snd] in *. rewrite fetches_app, issues_app.
    repeat split; lia.
Qed.

(** X3.  A pass over a page asks for the inputs of at most as many
    transactions as the page has deposits, builds no more mint
    transactions than it has fetched inputs, and takes at most three
    answers per deposit after the page: whatever it is answered, it cannot
    go round a page for ever. *)
Theorem pass_budget (page : list Utxo) (db : DB) (script : list Resp) :
  let o := scanForPayments env db (RPage (Some page) :: script) in
  (fetches o.2 <= length page)%nat
  /\ (issues o.2 <= fetches o.2)%nat
  /\ (consumed env KPage db (RPage (Some page) :: script)
      <= 1 + 3 * length page)%nat.
Proof.
  unfold scanForPayments. cbn [run consumed resume accepts].
  destruct (loop_budget page db) as (L1 & L2 & L3 & L4 & L5).
  destruct (loop env db page) as [[k db'] ev].
  cbn [fst snd] in L1, L2, L3, L4, L5 |- *.
  destruct (run_budget script k db' L5) as (R1 & R2 & R3).
  destruct (run env k db' script) as [[k' db''] ev'].
  cbn [prepend fst snd] in *.
  change (fetches ([FetchPage] ++ ev ++ ev')) with (fetches (ev ++ ev')).
  change (issues ([FetchPage] ++ ev ++ ev')) with (issues (ev ++ ev')).
  rewrite fetches_app, issues_app. repeat split; lia.
Qed.

End PassBudget.

(** ** A pass without an error leaves nothing of its page behind *)
Section CleanPass.
Variable env : Env.

Local Abbreviation clean := (Forall (fun e => is_error e = false)).

Lemma resume_seen k a db id :
  id ∈ seen_utxos db -> id ∈ seen_utxos (resume env k a db).1.2.
Proof.
  apply grows_seen. by destruct (good_resume env k a db) as (_ & ? & _).
Qed.

Lemma run_seen (script : list Resp) :
  forall k db id,
    id ∈ seen_utxos db -> id ∈ seen_utxos (run env k db script).1.2.
Proof.
  induction script as [|a script IH]; intros k db id H; cbn [run]; [done|].
  pose proof (resume_seen k a db id H) as H'.
  destruct (resume env k a db) as [[k' db'] ev]. cbn [fst snd] in H'.
  rewrite prepend_db. by apply IH.
Qed.

(** Of the deposits it goes through, the loop leaves unseen only those
    from the one it stops at. *)
Lemma loop_marks (utxos : list Utxo) :
  forall db,
    clean (loop env db utxos).2 ->
    forall u, u ∈ utxos ->
      utxoId u ∈ seen_utxos (loop env db utxos).1.2
      \/ u ∈ in_hand (loop env db utxos).1.1.
Proof.
  induction utxos as [|u0 rest IH]; intros db Hc u Hu.
  { by apply elem_of_nil in Hu. }
  cbn [loop] in *. destruct (Sql.select_seen db (utxoId u0)) eqn:Hs.
  { apply elem_of_cons in Hu as [->|Hu]; [|by apply IH].
    left. by apply loop_seen, SqlFacts.select_seen_true. }
  destruct (qualifies env u0) as [[|]|].
  - by right.
  - rewrite prepend_db, prepend_events in *.
    apply Forall_app in Hc as [_ Hc].
    apply elem_of_cons in Hu as [->|Hu].
    + left. apply loop_seen, SqlFacts.insert_seen_elem.
    + destruct (IH _ Hc u Hu) as [?|?]; [by left|right].
      by destruct (loop env _ rest) as [[??]?].
  - by apply Forall_cons in Hc as [? _].
Qed.

Lemma marked_then_loop ev db u rest :
  clean (prepend ev (loop env (Sql.insert_seen db (utxoId u)) rest)).2 ->
  forall u', u' ∈ u :: rest ->
    let o := prepend ev (loop env (Sql.insert_seen db (utxoId u)) rest) in
    utxoId u' ∈ seen_utxos o.1.2 \/ u' ∈ in_hand o.1.1.
Proof.
  intros Hc u' Hu'. cbn zeta.
  rewrite prepend_events in Hc. apply Forall_app in Hc as [_ Hc].
  rewrite prepend_db.
  assert ((prepend ev (loop env (Sql.insert_seen db (utxoId u)) rest)).1.1
          = (loop env (Sql.insert_seen db (utxoId u)) rest).1.1) as ->
    by (by destruct (loop env _ rest) as [[??]?]).
  apply elem_of_cons in Hu' as [->|Hu'].
  - left. apply loop_seen, SqlFacts.insert_seen_elem.
  - by apply loop_marks.
Qed.

Lemma resume_marks (k : Cont) (a : Resp) (db : DB) :
  clean (resume env k a db).2 ->
  forall u, u ∈ in_hand k ->
    utxoId u ∈ seen_utxos (resume env k a db).1.2
    \/ u ∈ in_hand (resume env k a db).1.1.
Proof.
  destruct k as [|u0 rest|u0 p s d rest|u0 r rest|], a;
    cbn [resume]; try (intros _ u Hu; by right);
    try (intros _ u Hu; by apply elem_of_nil in Hu).
  - (* the inputs arrive *)
    unfold afterInputs. destruct r as [txUtxos|].
    2:{ intros Hc. by apply Forall_cons in Hc as [? _]. }
    destruct (truthy _) as [payerAddr|]; [|apply marked_then_loop].
    destruct (getStakeKeyFromAddr env payerAddr) as [stakeKey|];
      [|apply marked_then_loop].
    destruct (Sql.select_stake db stakeKey); [apply marked_then_loop|].
    destruct (mintAndSend_begin _ _ _ _ _ _) as [[m db'] ev].
    intros _ u Hu. right. by destruct m.
  - (* the mint is settled *)
    intros _ u Hu. right. by destruct (mintAndSend_end _ _ _ _ _) as [[??]?].
  - (* back in the loop *)
    unfold afterMint. destruct r as [mintedTx|]; [apply marked_then_loop|].
    intros Hc. rewrite prepend_events in Hc.
    by apply Forall_app in Hc as [[? _]%Forall_cons _].
Qed.

Lemma run_marks (script : list Resp) :
  forall k db,
    k <> KPage ->
    (run env k db script).1.1 = KDone ->
    clean (run env k db script).2 ->
    forall u, u ∈ in_hand k ->
      utxoId u ∈ seen_utxos (run env k db script).1.2.
Proof.
  induction script as [|a script IH]; intros k db Hk; cbn [run].
  - cbn [fst snd]. intros -> _ u Hu. by apply elem_of_nil in Hu.
  - pose proof (resume_marks k a db) as Hm.
    destruct (resume_budget env k a db Hk) as (_ & _ & _ & Hk').
    destruct (resume env k a db) as [[k' db'] ev]. cbn [fst snd] in Hm, Hk'.
    rewrite prepend_db, prepend_events.
    assert ((prepend ev (run env k' db' script)).1.1
            = (run env k' db' script).1.1) as ->
      by (by destruct (run env k' db' script) as [[??]?]).
    intros Hd [Hc Hc']%Forall_app u Hu.
    destruct (Hm Hc u Hu) as [?|?]; [by apply run_seen|by apply IH].
Qed.

(** X4.  A pass that ends without a line from either [catch] has marked
    every deposit of its page seen: the next pass over the same page would
    ask for the page and for nothing else. *)
Theorem clean_pass_marks_page (page : list Utxo) (db : DB)
    (script : list Resp) :
  let o := scanForPayments env db (RPage (Some page) :: script) in
  o.1.1 = KDone ->
  Forall (fun e => is_error e = false) o.2 ->
  Forall (fun u => utxoId u ∈ seen_utxos o.1.2) page
  /\ scanForPayments env o.1.2 [RPage (Some page)] = (KDone, o.1.2, [FetchPage]).
Proof.
  unfold scanForPayments. cbn [run resume]. cbn zeta.
  pose proof (loop_marks page db) as Hl.
  destruct (loop_budget env page db) as (_ & _ & _ & _ & Hk).
  destruct (loop env db page) as [[k db'] ev]. cbn [fst snd] in Hl, Hk |- *.
  rewrite !prepend_db, !prepend_events.
  assert ((prepend [FetchPage] (prepend ev (run env k db' script))).1.1
          = (run env k db' script).1.1) as ->
    by (by destruct (run env k db' script) as [[??]?]).
  intros Hd [_ [Hc Hc']%Forall_app]%Forall_app.
  assert (Hall : Forall (fun u => utxoId u ∈ seen_utxos
                                     (run env k db' script).1.2) page).
  { apply Forall_forall. intros u Hu.
    destruct (Hl Hc u Hu) as [?|?]; [by apply run_seen|by apply run_marks]. }
  split; [done|]. by rewrite loop_all_seen.
Qed.

End CleanPass.

(** ** A failed mint and a failed lookup *)
Section Isolation.
Variable env : Env.

Lemma loop_examined (utxos : list Utxo) :
  forall db,
    (Log LScanError ∉ (loop env db utxos).2) ->
    forall u, u ∈ utxos ->
      utxoId u ∈ seen_utxos (loop env db utxos).1.2
      \/ u ∈ in_hand (loop env db utxos).1.1.
Proof.
  induction utxos as [|u0 rest IH]; intros db Hc u Hu.
  { by apply elem_of_nil in Hu. }
  cbn [loop] in *. destruct (Sql.select_seen db (utxoId u0)) eqn:Hs.
  { apply elem_of_cons in Hu as [->|Hu]; [|by apply IH].
    left. by apply loop_seen, SqlFacts.select_seen_true. }
  destruct (qualifies env u0) as [[|]|].
  - by right.
  - rewrite prepend_db, prepend_events, prepend_cont in *.
    apply not_elem_of_app in Hc as [_ Hc].
    apply elem_of_cons in Hu as [->|Hu].
    + left. apply loop_seen, SqlFacts.insert_seen_elem.
    + by apply IH.
  - exfalso. apply Hc. by left.
Qed.

Lemma marked_examined ev db u rest :
  let o := prepend ev (loop env (Sql.insert_seen db (utxoId u)) rest) in
  (Log LScanError ∉ o.2) ->
  forall u', u' ∈ u :: rest ->
    utxoId u' ∈ seen_utxos o.1.2 \/ u' ∈ in_hand o.1.1.
Proof.
  intros o Hc u' Hu'. unfold o in *.
  rewrite prepend_events in Hc. apply not_elem_of_app in Hc as [_ Hc].
  rewrite prepend_db, prepend_cont.
  apply elem_of_cons in Hu' as [->|Hu'].
  - left. apply loop_seen, SqlFacts.insert_seen_elem.
  - by apply loop_examined.
Qed.

(** A turn that does not end in the outer [catch] marks the deposit it is
    at, or logs that its mint failed, or keeps it in hand. *)
Lemma resume_examined (k : Cont) (a : Resp) (db : DB) :
  (Log LScanError ∉ (resume env k a db).2) ->
  forall u, u ∈ in_hand k ->
    utxoId u ∈ seen_utxos (resume env k a db).1.2
    \/ Log (LMintFailed (tx_hash u)) ∈ (resume env k a db).2
    \/ u ∈ in_hand (resume env k a db).1.1.
Proof.
  assert (Hmark : forall ev u0 rest,
             let o := prepend ev (loop env (Sql.insert_seen db (utxoId u0)) rest)
             in (Log LScanError ∉ o.2) ->
                forall u, u ∈ u0 :: rest ->
                  utxoId u ∈ seen_utxos o.1.2
                  \/ Log (LMintFailed (tx_hash u)) ∈ o.2
                  \/ u ∈ in_hand o.1.1).
  { intros ev u0 rest o Hc u Hu.
    destruct (marked_examined ev db u0 rest Hc u Hu); [by left|by right; right]. }
  destruct k as [|u0 rest|u0 p s d rest|u0 r rest|], a;
    cbn [resume]; try (intros _ u Hu; by right; right);
    try (intros _ u Hu; by apply elem_of_nil in Hu).
  - (* the inputs arrive *)
    unfold afterInputs. destruct r as [txUtxos|].
    2:{ intros Hc. exfalso. apply Hc. by left. }
    cbv zeta.
    destruct (truthy (((txUtxos ≫= inputs) ≫= head) ≫= address))
      as [payerAddr|]; [|apply Hmark].
    destruct (getStakeKeyFromAddr env payerAddr) as [stakeKey|];
      [|apply Hmark].
    destruct (Sql.select_stake db stakeKey); [apply Hmark|].
    destruct (mintAndSend_begin _ _ _ _ _ _) as [[m db'] ev].
    intros _ u Hu. right; right. by destruct m.
  - (* the mint is settled *)
    intros _ u Hu. right; right.
    by destruct (mintAndSend_end _ _ _ _ _) as [[??]?].
  - (* back in the loop *)
    unfold afterMint. destruct r as [mintedTx|]; [apply Hmark|].
    rewrite prepend_events, prepend_db, prepend_cont.
    intros [_ Hc]%not_elem_of_app u [->|Hu]%elem_of_cons.
    + right; left. apply elem_of_app. left. by left.
    + destruct (loop_examined rest db Hc u Hu); [by left|by right; right].
Qed.

Lemma examined_prepend ev (o : Out) (u : Utxo) :
  examined o u -> examined (prepend ev o) u.
Proof.
  unfold examined. rewrite prepend_db, prepend_events.
  intros [?|?]; [by left|right]. apply elem_of_app. by right.
Qed.

(** A pass that ends outside the outer [catch] has examined every deposit
    it had in hand. *)
Lemma run_examined (script : list Resp) :
  forall k db,
    k <> KPage ->
    (run env k db script).1.1 = KDone ->
    (Log LScanError ∉ (run env k db script).2) ->
    forall u, u ∈ in_hand k -> examined (run env k db script) u.
Proof.
  induction script as [|a script IH]; intros k db Hk; cbn [run].
  - cbn [fst snd]. intros -> _ u Hu. by apply elem_of_nil in Hu.
  - pose proof (resume_examined k a db) as Hm.
    pose proof (resume_seen env k a db) as Hs.
    destruct (resume_budget env k a db Hk) as (_ & _ & _ & Hk').
    destruct (resume env k a db) as [[k' db'] ev].
    cbn [fst snd] in Hm, Hk', Hs.
    rewrite prepend_events, prepend_cont.
    intros Hd [Hc Hc']%not_elem_of_app u Hu.
    destruct (Hm Hc u Hu) as [H|[H|H]].
    + left. rewrite prepend_db. by apply run_seen.
    + right. rewrite prepend_events. apply elem_of_app. by left.
    + apply examined_prepend. by apply IH.
Qed.

Lemma run_failed_mint (u : Utxo) (rest : list Utxo) (db : DB)
    (script : list Resp) :
  run env (KMintDone u Rejected rest) db (RTick :: script)
  = prepend [Log (LMintFailed (tx_hash u))]
      (run env KPage db (RPage (Some rest) :: script)).
Proof.
  cbn [run resume afterMint].
  destruct (loop env db rest) as [[k' db'] ev]. cbn [prepend].
  by destruct (run env k' db' script) as [[k2 db2] ev2].
Qed.

(** C4, as the code has it.  A mint that fails, before or after it is
    submitted, is caught inside the loop: the pass logs it and goes on
    with the rest of the page as a pass over the rest would.  So in a pass
    that ends without a line from the outer [catch], however many of its
    mints failed, every deposit of the page has been examined: it is in
    [seen_utxos] or the failure of its own mint is in the log.  An error
    of the request for the inputs of a transaction is caught outside the
    loop: the pass ends there, the store is as it was, and nothing that
    arrives later makes the pass do anything, so the deposits after it are
    not examined in that pass. *)
Theorem failure_isolation (page : list Utxo) (db : DB) (script : list Resp) :
  let o := scanForPayments env db (RPage (Some page) :: script) in
  (o.1.1 = KDone -> (Log LScanError ∉ o.2) -> Forall (examined o) page)
  /\ (forall u rest payerAddr stakeKey design db1 script1,
        run env (KIssue u payerAddr stakeKey design rest) db1
            (RIssue None :: RTick :: script1)
        = prepend [Log (LMintFailed (tx_hash u))]
            (run env KPage db1 (RPage (Some rest) :: script1)))
  /\ (forall u rest db1 script1,
        run env (KMintDone u Rejected rest) db1 (RTick :: script1)
        = prepend [Log (LMintFailed (tx_hash u))]
            (run env KPage db1 (RPage (Some rest) :: script1)))
  /\ (forall u rest db1 rnd script1,
        run env (KInputs u rest) db1 (RInputs None rnd :: script1)
        = (KDone, db1, [Log LScanError])).
Proof.
  intros o. split; [|split; [|split]].
  - unfold o, scanForPayments. cbn [run resume].
    pose proof (loop_examined page db) as Hl.
    pose proof (run_seen env script) as Hs.
    destruct (loop_budget env page db) as (_ & _ & _ & _ & Hk).
    destruct (loop env db page) as [[k db'] ev]. cbn [fst snd] in Hl, Hk.
    rewrite !prepend_events, !prepend_cont.
    intros Hd [_ [Hc Hc']%not_elem_of_app]%not_elem_of_app.
    apply Forall_forall. intros u Hu.
    apply examined_prepend, examined_prepend.
    destruct (Hl Hc u Hu) as [H|H]; [left; by apply Hs|].
    by apply run_examined.
  - intros u rest payerAddr stakeKey design db1 script1.
    rewrite <-run_failed_mint. cbn [run resume mintAndSend_end].
    apply prepend_nil.
  - intros u rest db1 script1. apply run_failed_mint.
  - intros u rest db1 rnd script1. cbn [run resume afterInputs].
    by rewrite run_done.
Qed.

End Isolation.

Lemma failure_isolation_witness :
  let o := scanForPayments sample_env empty_db (RPage (Some page3) :: script3)
  in
  Forall (examined o) page3
  /\ seen_utxos o.1.2 = ["T2#0"; "T3#0"]
  /\ (Log (LMintFailed "T1") ∈ o.2)
  /\ let o' := scanForPayments sample_env empty_db
                 [RPage (Some page3); RInputs (inputs_from "addr1") 0;
                  RIssue None; RTick; RInputs None 0] in
     o'.1.1 = KDone /\ seen_utxos o'.1.2 = [] /\ ~ examined o' (overpaid "T3" 0).
Proof.
  intros o.
  destruct (failure_isolation sample_env page3 empty_db script3) as [H _].
  split; [apply H; [reflexivity|compute_done]|].
  split; [reflexivity|]. split; [compute_done|].
  intros o'. split; [reflexivity|]. split; [reflexivity|].
  intros [H1|H1]; revert H1; compute_done.
Defined.

(** ** Where rows, mints and seen keys come from *)
Section Provenance.
Variable env : Env.

Lemma truthy_Some (x : option string) (s : string) :
  truthy x = Some s <-> x = Some s /\ s <> "".
Proof.
  unfold truthy. destruct x as [s'|]; [|by split; [|intros [? _]]].
  case_decide as E; split; try done.
  - intros [[= ->] ?]. done.
  - by intros [= ->].
  - by intros [[= ->] _].
Qed.

Lemma getStakeKeyFromAddr_not_empty (address k : string) :
  getStakeKeyFromAddr env address = Some k -> k <> "".
Proof.
  unfold getStakeKeyFromAddr. destruct (getAddressDetails env address); [|done].
  by intros [_ ?]%truthy_Some.
Qed.

Lemma drawn_catalog (rnd : nat) (d : Design) :
  drawn env rnd = Some d -> d ∈ catalog env.
Proof.
  unfold drawn, catalog, pickRandomDesign.
  destruct (loadDesigns env) as [ds|]; simpl; [|done].
  apply list_elem_of_lookup_2.
Qed.

Lemma well_paid_mono (P P' : list Utxo) (t : string) :
  P ⊆ P' -> well_paid env P t -> well_paid env P' t.
Proof. intros HP (u & Hu & ?). exists u. split; [by apply HP|done]. Qed.

Lemma row_ok_mono (P P' : list Utxo) (r : MintRow) :
  P ⊆ P' -> row_ok env P r -> row_ok env P' r.
Proof.
  intros HP (H1 & H2). split; [by eapply well_paid_mono|done].
Qed.

Lemma event_ok_mono (P P' : list Utxo) (e : Event) :
  P ⊆ P' -> event_ok env P e -> event_ok env P' e.
Proof.
  intros HP. destruct e; simpl; try done.
  intros (H1 & H2). split; [by eapply well_paid_mono|done].
Qed.

Lemma task_ok_mono (P P' : list Utxo) (k : Cont) :
  P ⊆ P' -> task_ok env P k -> task_ok env P' k.
Proof.
  intros HP. destruct k; simpl; try done.
  - intros (H1 & H2 & H3). repeat split; [by apply HP|done|by etrans].
  - intros (H1 & H2 & H3 & H4). repeat split; [by apply HP|done|by etrans|..];
      apply H4.
  - intros (H1 & H2). split; [by apply HP|by etrans].
Qed.

Lemma seen_ok_mono (P P' : list Utxo) (db : DB) :
  P ⊆ P' -> seen_ok P db -> seen_ok P' db.
Proof.
  intros HP H id Hid. destruct (H id Hid) as (u & Hu & E).
  exists u. split; [by apply HP|done].
Qed.

Lemma provenance_mono (P P' : list Utxo) (s : Sys) :
  P ⊆ P' -> provenance env P s -> provenance env P' s.
Proof.
  intros HP (H1 & H2 & H3 & H4). repeat split.
  - eapply Forall_impl; [done|]. intros k. by apply task_ok_mono.
  - eapply Forall_impl; [done|]. intros r. by apply row_ok_mono.
  - eapply Forall_impl; [done|]. intros e. by apply event_ok_mono.
  - by eapply seen_ok_mono.
Qed.

Lemma seen_ok_insert (P : list Utxo) (db : DB) (u : Utxo) :
  u ∈ P -> seen_ok P db -> seen_ok P (Sql.insert_seen db (utxoId u)).
Proof.
  intros Hu H id. unfold Sql.insert_seen.
  destruct (Sql.select_seen db (utxoId u)); [apply H|]. simpl.
  intros [?|E%list_elem_of_singleton]%elem_of_app; [by apply H|].
  subst id. by exists u.
Qed.

(** Events without a mint need no provenance. *)
Lemma quiet_events_ok (P : list Utxo) (ev : list Event) :
  issues ev = 0%nat -> Forall (event_ok env P) ev.
Proof.
  induction ev as [|e ev IH]; [done|].
  unfold issues. rewrite filter_cons.
  destruct e; simpl; intros H; constructor; done || by apply IH.
Qed.

Lemma loop_prov (P : list Utxo) (utxos : list Utxo) :
  forall db,
    utxos ⊆ P -> Forall (row_ok env P) (mints db) -> seen_ok P db ->
    turn_ok env P (loop env db utxos).
Proof.
  induction utxos as [|u rest IH]; intros db HP Hrows Hseen.
  { by repeat split. }
  assert (Hu : u ∈ P) by (apply HP; left).
  assert (Hrest : rest ⊆ P) by (intros x Hx; apply HP; by right).
  cbn [loop]. destruct (Sql.select_seen db (utxoId u)); [by apply IH|].
  destruct (qualifies env u) as [[|]|] eqn:Hq.
  - repeat split; try done. by repeat constructor.
  - destruct (IH (Sql.insert_seen db (utxoId u))) as (H1 & H2 & H3 & H4);
      [done|by rewrite SqlFacts.insert_seen_mints|by apply seen_ok_insert|].
    destruct (loop env _ rest) as [[k' db'] ev']. cbn [prepend fst snd] in *.
    repeat split; try done. by constructor.
  - repeat split; try done. by repeat constructor.
Qed.

Lemma marked_prov (P : list Utxo) (l : list Event) db u rest :
  u ∈ P -> rest ⊆ P -> issues l = 0%nat ->
  Forall (row_ok env P) (mints db) -> seen_ok P db ->
  turn_ok env P (prepend l (loop env (Sql.insert_seen db (utxoId u)) rest)).
Proof.
  intros Hu Hrest Hl Hrows Hseen.
  destruct (loop_prov P rest (Sql.insert_seen db (utxoId u)))
    as (H1 & H2 & H3 & H4);
    [done|by rewrite SqlFacts.insert_seen_mints|by apply seen_ok_insert|].
  destruct (loop env _ rest) as [[k' db'] ev']. cbn [prepend fst snd] in *.
  repeat split; try done. apply Forall_app. split; [|done].
  by apply quiet_events_ok.
Qed.

Lemma resume_prov (P : list Utxo) (k : Cont) (a : Resp) (db : DB) :
  task_ok env P k ->
  (forall page, k = KPage -> a = RPage (Some page) -> page ⊆ P) ->
  Forall (row_ok env P) (mints db) -> seen_ok P db ->
  turn_ok env P (resume env k a db).
Proof.
  intros Hk Hpage Hrows Hseen.
  destruct k as [|u rest|u p s d rest|u r rest|], a; cbn [resume];
    try (by split; [exact Hk|repeat split]).
  - (* the page arrives *)
    destruct r as [page|]; [|by repeat split; try repeat constructor].
    apply loop_prov; [by apply Hpage|done..].
  - (* the inputs arrive *)
    destruct Hk as (Hu & Hq & Hrest). unfold afterInputs.
    destruct r as [txUtxos|]; [|by repeat split; try repeat constructor].
    cbv zeta.
    destruct (truthy (((txUtxos ≫= inputs) ≫= head) ≫= address))
      as [payerAddr|] eqn:Hp; [|by apply marked_prov].
    apply truthy_Some in Hp as [_ Hp].
    destruct (getStakeKeyFromAddr env payerAddr) as [stakeKey|] eqn:Hs;
      [|by apply marked_prov].
    destruct (Sql.select_stake db stakeKey); [by apply marked_prov|].
    unfold mintAndSend_begin.
    destruct (SqlFacts.insert_mint_spec db stakeKey payerAddr (tx_hash u))
      as [(_ & _ & ->)|(_ & ->)]; simpl.
    + assert (Hrows' : Forall (row_ok env P)
                         (mints db ++
                          [pending_row stakeKey payerAddr (tx_hash u)])).
      { apply Forall_app. split; [done|]. constructor; [|done].
        split; [by exists u|]. split; [done|]. split; [done|]. done. }
      destruct (loadDesigns env) as [ds|] eqn:Hds;
        [|by repeat split; try repeat constructor].
      destruct (pickRandomDesign ds rnd) as [design|] eqn:Hd;
        [|by repeat split; try repeat constructor].
      assert (design ∈ catalog env).
      { apply (drawn_catalog rnd). unfold drawn. by rewrite Hds. }
      repeat split; try done.
      constructor; [done|]. constructor; [|done]. repeat split; try done.
      by exists u.
    + by repeat split; try repeat constructor.
  - (* the mint is settled *)
    destruct Hk as (Hu & Hq & Hrest & Hpayer & Hd).
    destruct r as [txHash|]; simpl; [|by repeat split].
    repeat split; try done; [|by repeat constructor].
    apply Forall_fmap. eapply Forall_impl; [done|].
    intros r (H1 & H2 & H3 & H4). unfold Sql.set_minted, compose.
    case_decide; [|done]. split; [done|]. split; [done|]. simpl.
    split; [done|].
    intros n [= <-]. by apply list_elem_of_fmap_2.
  - (* back in the loop *)
    destruct Hk as (Hu & Hrest). unfold afterMint.
    destruct r as [mintedTx|].
    + apply marked_prov; try done. by destruct (truthy mintedTx).
    + destruct (loop_prov P rest db) as (H1 & H2 & H3 & H4); [done..|].
      destruct (loop env db rest) as [[k' db'] ev'].
      cbn [prepend fst snd] in *. repeat split; try done. by constructor.
Qed.

Lemma act_prov (P : list Utxo) (s : Sys) (x : Action) :
  provenance env P s ->
  provenance env (P ++ shown env s [x]) (act env s x).
Proof.
  intros Hs.
  assert (HP : P ⊆ P ++ shown env s [x]) by (intros u ?; apply elem_of_app; by left).
  apply (provenance_mono _ _ _ HP) in Hs as (H1 & H2 & H3 & H4).
  destruct x as [|i a|]; cbn [act].
  - repeat split; simpl; try done.
    + apply Forall_app. split; [done|]. by constructor.
    + apply Forall_app. split; [done|]. by constructor.
  - destruct (tasks s !! i) as [k|] eqn:Hi; [|by repeat split].
    destruct (resume_prov (P ++ shown env s [Deliver i a]) k a (store s))
      as (T1 & T2 & T3 & T4); try done.
    + eapply Forall_lookup_1; done.
    + intros page -> ->. cbn [shown]. rewrite Hi.
      intros u Hu. apply elem_of_app. right. apply elem_of_app. by left.
    + destruct (resume env k a (store s)) as [[k' db'] ev].
      cbn [fst snd] in *. repeat split; simpl; try done.
      * by apply Forall_insert.
      * by apply Forall_app.
  - by repeat split.
Qed.

Lemma shown_cons (s : Sys) (x : Action) (sched : list Action) :
  shown env s (x :: sched) = shown env s [x] ++ shown env (act env s x) sched.
Proof. cbn [shown]. by rewrite app_nil_r. Qed.

Lemma exec_from_prov (sched : list Action) :
  forall P s,
    provenance env P s ->
    provenance env (P ++ shown env s sched) (exec_from env s sched).
Proof.
  induction sched as [|x sched IH]; intros P s Hs.
  { by rewrite app_nil_r. }
  rewrite shown_cons, app_assoc. apply (IH _ (act env s x)).
  by apply act_prov.
Qed.

Lemma exec_prov (sched : list Action) :
  provenance env (shown env boot sched) (exec env sched).
Proof.
  apply (exec_from_prov sched [] boot).
  repeat split; try by constructor.
  intros id Hid. by apply elem_of_nil in Hid.
Qed.

End Provenance.

Section Origins.
Variable env : Env.

(** X5. Whatever the interleaving of passes and restarts, every mint that
    the server builds is for a transaction of a deposit that a page of the
    mint address listed and that the classifier accepted, goes to a
    non-empty payer address whose stake credential is the stake key that
    is claimed (so that key is not empty either), and uses a design taken
    from [designs.json]. *)
Theorem mint_provenance (sched : list Action) (p k t : string) (d : Design) :
  Issue p k t d ∈ trace (exec env sched) ->
  (exists u, u ∈ shown env boot sched /\ tx_hash u = t
             /\ qualifies env u = Some true)
  /\ p <> "" /\ getStakeKeyFromAddr env p = Some k /\ k <> ""
  /\ d ∈ catalog env.
Proof.
  intros H. destruct (exec_prov env sched) as (_ & _ & He & _).
  rewrite Forall_forall in He. destruct (He _ H) as (H1 & [H2 H3] & H4).
  repeat split; try done. by eapply getStakeKeyFromAddr_not_empty.
Qed.

(** X6. Every row of [mints], in every reachable state, records a payment
    that the watcher has seen: its [paid_tx] is the transaction of a listed
    deposit that the classifier accepted, its [payer_address] is not empty,
    and its [stake_key] is the non-empty stake credential of that
    address. *)
Theorem row_provenance (sched : list Action) (r : MintRow) :
  r ∈ mints (store (exec env sched)) ->
  (exists u, u ∈ shown env boot sched /\ tx_hash u = paid_tx r
             /\ qualifies env u = Some true)
  /\ payer_address r <> ""
  /\ getStakeKeyFromAddr env (payer_address r) = Some (stake_key r)
  /\ stake_key r <> "".
Proof.
  intros H. destruct (exec_prov env sched) as (_ & Hr & _ & _).
  rewrite Forall_forall in Hr. destruct (Hr _ H) as (H1 & [H2 H3] & _).
  repeat split; try done. by eapply getStakeKeyFromAddr_not_empty.
Qed.

(** X7. [minted_tx] and [asset_name] of a row are set together or not at
    all, and a recorded asset name is the name of a design of
    [designs.json]. *)
Theorem asset_from_catalog (sched : list Action) (r : MintRow) :
  r ∈ mints (store (exec env sched)) ->
  (minted_tx r = None <-> asset_name r = None)
  /\ forall n, asset_name r = Some n ->
               exists d, d ∈ catalog env /\ name d = n.
Proof.
  intros H. destruct (exec_prov env sched) as (_ & Hr & _ & _).
  rewrite Forall_forall in Hr. destruct (Hr _ H) as (_ & _ & H3 & H4).
  split; [done|]. intros n Hn.
  apply H4, list_elem_of_fmap in Hn as (d & -> & Hd). by exists d.
Qed.

(** X8. [seen_utxos] holds nothing but keys of deposits that a page of the
    mint address listed: every key is [tx_hash#output_index] of such a
    deposit. *)
Theorem seen_provenance (sched : list Action) (id : string) :
  id ∈ seen_utxos (store (exec env sched)) ->
  exists u, u ∈ shown env boot sched /\ id = utxoId u.
Proof.
  intros H. destruct (exec_prov env sched) as (_ & _ & _ & Hs).
  destruct (Hs _ H) as (u & Hu & E). by exists u.
Qed.

Lemma select_stake_elem (db : DB) (k : string) (r : MintRow) :
  Sql.select_stake db k = Some r -> r ∈ mints db /\ stake_key r = k.
Proof.
  unfold Sql.select_stake. intros H.
  apply head_Some_elem_of, list_elem_of_filter in H. by destruct H.
Qed.

(** X9. When [designs.json] cannot be read or is empty, no mint is ever
    built and no row is ever fulfilled: payments are still claimed, and
    [/api/status] answers at most [paid] for them. *)
Theorem no_catalog_no_mint (sched : list Action) :
  catalog env = [] ->
  issues (trace (exec env sched)) = 0%nat
  /\ Forall (fun r => minted_tx r = None /\ asset_name r = None)
            (mints (store (exec env sched)))
  /\ forall k, status (store (exec env sched)) k = StNone
               \/ exists t, status (store (exec env sched)) k = StPaid t.
Proof.
  intros Hc. destruct (exec_prov env sched) as (_ & Hr & He & _).
  assert (Hrows : Forall (fun r => minted_tx r = None /\ asset_name r = None)
                         (mints (store (exec env sched)))).
  { eapply Forall_impl; [exact Hr|]. intros r (_ & _ & H3 & H4).
    assert (asset_name r = None) as Ha.
    { destruct (asset_name r) as [n|]; [|done].
      specialize (H4 n eq_refl). rewrite Hc in H4.
      by apply elem_of_nil in H4. }
    split; [by apply H3|done]. }
  split; [|split; [done|]].
  - unfold issues.
    induction He as [|e tr H _ IH]; [done|].
    rewrite filter_cons. destruct e; simpl; try done.
    destruct H as (_ & _ & H). rewrite Hc in H. by apply elem_of_nil in H.
  - intros k. unfold status.
    destruct (Sql.select_stake _ k) as [r|] eqn:E; [|by left].
    apply select_stake_elem in E as [E _].
    rewrite Forall_forall in Hrows. destruct (Hrows _ E) as [-> _].
    right. by eexists.
Qed.

End Origins.

Lemma mint_provenance_witness :
  Issue "addr1" "stake1" "T1" design_A ∈ trace (exec sample_env sample_sched)
  /\ (exists u, u ∈ shown sample_env boot sample_sched /\ tx_hash u = "T1"
                /\ qualifies sample_env u = Some true)
  /\ getStakeKeyFromAddr sample_env "addr1" = Some "stake1"
  /\ design_A ∈ catalog sample_env.
Proof.
  assert (H : Issue "addr1" "stake1" "T1" design_A
              ∈ trace (exec sample_env sample_sched)).
  { apply list_elem_of_In. vm_compute. auto 10. }
  split; [exact H|].
  destruct (mint_provenance sample_env sample_sched _ _ _ _ H)
    as (H1 & _ & H3 & _ & H5).
  done.
Defined.

Lemma row_provenance_witness :
  let r := minted_row "stake1" "addr1" "T1" "M1" "Design_A" in
  r ∈ mints (store (exec sample_env sample_sched))
  /\ (exists u, u ∈ shown sample_env boot sample_sched /\ tx_hash u = "T1"
                /\ qualifies sample_env u = Some true)
  /\ getStakeKeyFromAddr sample_env "addr1" = Some "stake1".
Proof.
  intros r.
  assert (H : r ∈ mints (store (exec sample_env sample_sched))).
  { apply list_elem_of_In. vm_compute. auto. }
  split; [exact H|].
  destruct (row_provenance sample_env sample_sched r H) as (H1 & _ & H3 & _).
  done.
Defined.

Lemma asset_from_catalog_witness :
  let r := minted_row "stake1" "addr1" "T1" "M1" "Design_A" in
  r ∈ mints (store (exec sample_env sample_sched))
  /\ exists d, d ∈ catalog sample_env /\ name d = "Design_A".
Proof.
  intros r.
  assert (H : r ∈ mints (store (exec sample_env sample_sched))).
  { apply list_elem_of_In. vm_compute. auto. }
  split; [exact H|].
  destruct (asset_from_catalog sample_env sample_sched r H) as [_ H2].
  by apply H2.
Defined.

Lemma seen_provenance_witness :
  seen_utxos (store (exec sample_env sample_sched)) = ["T0#0"; "T1#0"]
  /\ exists u, u ∈ shown sample_env boot sample_sched /\ "T1#0" = utxoId u.
Proof.
  split; [reflexivity|].
  apply (seen_provenance sample_env sample_sched "T1#0").
  apply list_elem_of_In. vm_compute. auto.
Defined.

Lemma no_catalog_no_mint_witness :
  let s := exec no_designs_env sample_sched in
  issues (trace s) = 0%nat
  /\ store s = {| mints := [pending_row "stake1" "addr1" "T1"];
                  seen_utxos := ["T0#0"] |}
  /\ status (store s) "stake1" = StPaid "T1".
Proof.
  intros s.
  destruct (no_catalog_no_mint no_designs_env sample_sched eq_refl)
    as (H1 & _ & _).
  split; [exact H1|]. split; reflexivity.
Defined.

(** ** Fulfilment: the UPDATE of a row *)
Section Fulfilment.
Variable env : Env.

Lemma issuing_count_cons t k ks :
  issuing_count t (k :: ks)
  = (Nat.b2n (issuing t k) + issuing_count t ks)%nat.
Proof.
  unfold issuing_count. rewrite filter_cons.
  destruct (issuing t k); by case_decide.
Qed.

Lemma issuing_count_app t ks ks' :
  issuing_count t (ks ++ ks')
  = (issuing_count t ks + issuing_count t ks')%nat.
Proof. unfold issuing_count. by rewrite filter_app, length_app. Qed.

Lemma issuing_count_insert t (ks : list Cont) :
  forall i k k',
    ks !! i = Some k ->
    (issuing_count t (<[i:=k']> ks) + Nat.b2n (issuing t k)
     = issuing_count t ks + Nat.b2n (issuing t k'))%nat.
Proof.
  induction ks as [|c ks IH]; intros [|i] k k' H; try done; simpl in *.
  - injection H as ->. rewrite !issuing_count_cons. lia.
  - rewrite !issuing_count_cons. specialize (IH i k k' H). lia.
Qed.

Lemma issuing_count_zero t ks :
  issuing_count t ks = 0%nat -> Forall (fun k => issuing t k = false) ks.
Proof.
  induction ks as [|k ks IH]; [done|]. rewrite issuing_count_cons.
  destruct (issuing t k) eqn:E; simpl; [done|].
  intros H. constructor; [done|by apply IH].
Qed.

Lemma minted_writes_app t a b :
  minted_writes t (a ++ b) = (minted_writes t a + minted_writes t b)%nat.
Proof. unfold minted_writes. by rewrite filter_app, length_app. Qed.

Lemma minted_writes_one t h n t' :
  minted_writes t [OpMinted h n t'] = Nat.b2n (bool_decide (t' = t)).
Proof.
  unfold minted_writes. rewrite filter_cons. simpl.
  destruct (bool_decide (t' = t)); by case_decide.
Qed.

Lemma rows_paid_update t db h n t' :
  rows_paid t (Sql.update_minted db h n t') = rows_paid t db.
Proof.
  unfold rows_paid. simpl. induction (mints db) as [|r l IH]; [done|].
  rewrite fmap_cons, !filter_cons, SqlFacts.set_minted_paid_tx.
  case_decide; simpl; by rewrite IH.
Qed.

Lemma rows_paid_le_1 t db : db_ok db -> (rows_paid t db <= 1)%nat.
Proof. intros (_ & H & _). by apply CountFacts.filter_key_le_1. Qed.

Lemma rows_paid_same t db db' :
  mints db' = mints db -> rows_paid t db' = rows_paid t db.
Proof. unfold rows_paid. by intros ->. Qed.

Lemma rows_paid_fresh t db db' k p t' :
  mints db' = mints db ++ [pending_row k p t'] ->
  rows_paid t db' = (rows_paid t db + Nat.b2n (bool_decide (t' = t)))%nat.
Proof.
  unfold rows_paid. intros ->. rewrite filter_app, length_app. f_equal.
  rewrite filter_cons. simpl.
  destruct (bool_decide_reflect (t' = t)); by case_decide.
Qed.

Lemma quiet_loop (utxos : list Utxo) :
  forall db, quiet db (loop env db utxos).
Proof.
  induction utxos as [|u rest IH]; intros db; cbn [loop]; [done|].
  destruct (Sql.select_seen db (utxoId u)); [apply IH|].
  destruct (qualifies env u) as [[|]|]; [done| |done].
  destruct (IH (Sql.insert_seen db (utxoId u))) as (H1 & H2 & H3).
  destruct (loop env _ rest) as [[k' db'] ev']. cbn [prepend fst snd] in *.
  by rewrite SqlFacts.insert_seen_mints in H1.
Qed.

Lemma quiet_prepend (l : list Event) db db0 (o : Out) :
  (forall t, minted_writes t (writes l) = 0%nat) ->
  mints db0 = mints db -> quiet db0 o -> quiet db (prepend l o).
Proof.
  intros Hl Hm (H1 & H2 & H3). destruct o as [[k' db'] ev'].
  unfold quiet. cbn [prepend fst snd] in *. repeat split; [congruence|done|].
  intros t. by rewrite writes_app, minted_writes_app, Hl, H3.
Qed.

Lemma quiet_marked (l : list Event) db id rest :
  (forall t, minted_writes t (writes l) = 0%nat) ->
  quiet db (prepend l (loop env (Sql.insert_seen db id) rest)).
Proof.
  intros Hl. eapply quiet_prepend; [done| |apply quiet_loop].
  apply SqlFacts.insert_seen_mints.
Qed.

(** What a turn can do to the rows. *)
Lemma resume_shape (k : Cont) (a : Resp) (db : DB) :
  let o := resume env k a db in
  quiet db o
  \/ o = (k, db, [])
  \/ (exists u p s,
        (tx_hash u ∉ paid_txs db)
        /\ mints o.1.2 = mints db ++ [pending_row s p (tx_hash u)]
        /\ (forall t, issuing t o.1.1 = true -> tx_hash u = t)
        /\ forall t, minted_writes t (writes o.2) = 0%nat)
  \/ (exists u p s d rest h,
        k = KIssue u p s d rest
        /\ (forall t, issuing t o.1.1 = false)
        /\ o.1.2 = Sql.update_minted db h (name d) (tx_hash u)
        /\ writes o.2 = [OpMinted h (name d) (tx_hash u)]).
Proof.
  destruct k as [|u rest|u p s d rest|u r rest|], a; cbn [resume];
    try (by right; left).
  - left. destruct r as [page|]; [apply quiet_loop|done].
  - unfold afterInputs. destruct r as [txUtxos|]; [|by left]. cbv zeta.
    destruct (truthy (((txUtxos ≫= inputs) ≫= head) ≫= address))
      as [payerAddr|]; [|by left; apply quiet_marked].
    destruct (getStakeKeyFromAddr env payerAddr) as [stakeKey|];
      [|by left; apply quiet_marked].
    destruct (Sql.select_stake db stakeKey); [by left; apply quiet_marked|].
    unfold mintAndSend_begin.
    destruct (SqlFacts.insert_mint_spec db stakeKey payerAddr (tx_hash u))
      as [(_ & Ht & ->)|(_ & ->)]; simpl; [|by left].
    right; right; left. exists u, payerAddr, stakeKey.
    destruct (loadDesigns env) as [ds|]; [|by repeat split].
    destruct (pickRandomDesign ds rnd) as [design|]; [|by repeat split].
    repeat split; try done. simpl. intros t. by case_bool_decide.
  - destruct r as [txHash|]; simpl; [|by left].
    right; right; right. by exists u, p, s, d, rest, txHash.
  - left. unfold afterMint. destruct r as [mintedTx|].
    + apply quiet_marked. by destruct (truthy mintedTx).
    + eapply quiet_prepend; [done|done|apply quiet_loop].
Qed.

Lemma act_fulfil (s : Sys) (x : Action) :
  fulfil_ok s -> fulfil_ok (act env s x).
Proof.
  intros [HL HM]. destruct x as [|i a|]; cbn [act].
  - split; simpl.
    + intros t. rewrite issuing_count_app, writes_app, minted_writes_app.
      specialize (HL t). change (issuing_count t [KPage]) with 0%nat.
      change (minted_writes t (writes [FetchPage])) with 0%nat. lia.
    + intros r Hr Hm. rewrite writes_app, minted_writes_app.
      specialize (HM r Hr Hm). lia.
  - destruct (tasks s !! i) as [k|] eqn:Hi; [|done].
    pose proof (resume_shape k a (store s)) as Hshape.
    destruct (resume env k a (store s)) as [[k' db'] ev].
    cbv zeta in Hshape. unfold quiet in Hshape.
    cbn [fst snd] in Hshape. split; simpl.
    + intros t. specialize (HL t).
      pose proof (issuing_count_insert t (tasks s) i k k' Hi) as Hins.
      rewrite writes_app, minted_writes_app.
      destruct Hshape as [(H1 & H2 & H3)|[E|[(u & p & sk & Hu & H1 & H2 & H3)
        |(u & p & sk & d & rest & h & -> & H1 & -> & H3)]]].
      * rewrite (rows_paid_same t _ _ H1), H3. rewrite H2 in Hins.
        simpl in Hins. lia.
      * injection E as -> -> ->.
        change (minted_writes t (writes [])) with 0%nat. lia.
      * rewrite (rows_paid_fresh t _ _ _ _ _ H1), H3.
        assert (Nat.b2n (issuing t k')
                <= Nat.b2n (bool_decide (tx_hash u = t)))%nat.
        { destruct (issuing t k') eqn:E; simpl; [|lia].
          by rewrite bool_decide_eq_true_2 by by apply H2. }
        lia.
      * rewrite rows_paid_update, H3, minted_writes_one. rewrite H1 in Hins.
        simpl in Hins. lia.
    + intros r Hr Hm. rewrite writes_app, minted_writes_app.
      destruct Hshape as [(H1 & H2 & H3)|[E|[(u & p & sk & Hu & H1 & H2 & H3)
        |(u & p & sk & d & rest & h & -> & H1 & -> & H3)]]].
      * rewrite H1 in Hr. specialize (HM r Hr Hm). lia.
      * injection E as -> -> ->. specialize (HM r Hr Hm). lia.
      * rewrite H1 in Hr.
        apply elem_of_app in Hr as [Hr|Hr%list_elem_of_singleton].
        -- specialize (HM r Hr Hm). lia.
        -- by subst r.
      * simpl in Hr. apply list_elem_of_fmap in Hr as (r0 & -> & Hr0).
        rewrite H3, minted_writes_one, SqlFacts.set_minted_paid_tx.
        unfold Sql.set_minted in Hm.
        destruct (decide (paid_tx r0 = tx_hash u)) as [E|E].
        ++ rewrite bool_decide_eq_true_2 by done. simpl. lia.
        ++ specialize (HM r0 Hr0 Hm). lia.
  - split; simpl; [|done].
    intros t. specialize (HL t).
    change (issuing_count t []) with 0%nat. lia.
Qed.

Lemma exec_from_fulfil (sched : list Action) :
  forall s, fulfil_ok s -> fulfil_ok (exec_from env s sched).
Proof.
  induction sched as [|x sched IH]; intros s Hs; [done|].
  apply IH. by apply act_fulfil.
Qed.

Lemma exec_fulfil (sched : list Action) : fulfil_ok (exec env sched).
Proof.
  apply exec_from_fulfil. split; [intros t; simpl; reflexivity|].
  intros r Hr. by apply elem_of_nil in Hr.
Qed.

(** A row that no pass is about to fulfil stays as it is. *)
Lemma act_settled (r : MintRow) (s : Sys) (x : Action) :
  r ∈ mints (store s) -> settled r (tasks s) ->
  r ∈ mints (store (act env s x)) /\ settled r (tasks (act env s x)).
Proof.
  intros Hr Hs. destruct x as [|i a|]; cbn [act].
  - split; [done|]. apply Forall_app. split; [done|]. by constructor.
  - destruct (tasks s !! i) as [k|] eqn:Hi; [|done].
    pose proof (resume_shape k a (store s)) as Hshape.
    assert (Hk : issuing (paid_tx r) k = false)
      by (by eapply (Forall_lookup_1 _ _ _ _ Hs)).
    destruct (resume env k a (store s)) as [[k' db'] ev].
    cbv zeta in Hshape. unfold quiet in Hshape.
    cbn [fst snd] in Hshape. simpl.
    destruct Hshape as [(H1 & H2 & H3)|[E|[(u & p & sk & Hu & H1 & H2 & H3)
      |(u & p & sk & d & rest & h & -> & H1 & -> & H3)]]].
    + rewrite H1. split; [done|]. by apply Forall_insert.
    + injection E as -> -> ->. split; [done|]. by apply Forall_insert.
    + rewrite H1. split; [apply elem_of_app; by left|].
      apply Forall_insert; [done|].
      destruct (issuing (paid_tx r) k') eqn:E; [|done].
      exfalso. apply Hu. rewrite (H2 _ E). by apply list_elem_of_fmap_2.
    + split; [|by apply Forall_insert].
      simpl in *. apply list_elem_of_fmap. exists r. split; [|done].
      unfold Sql.set_minted. rewrite decide_False; [done|].
      intros E. by rewrite E, bool_decide_eq_true_2 in Hk.
  - split; [done|]. constructor.
Qed.

Lemma exec_from_settled (r : MintRow) (sched : list Action) :
  forall s,
    r ∈ mints (store s) -> settled r (tasks s) ->
    r ∈ mints (store (exec_from env s sched)).
Proof.
  induction sched as [|x sched IH]; intros s Hr Hs; [done|].
  destruct (act_settled r s x Hr Hs). by apply (IH (act env s x)).
Qed.

(** A row keeps its keys. *)
Lemma act_row (r : MintRow) (s : Sys) (x : Action) :
  r ∈ mints (store s) ->
  exists r', r' ∈ mints (store (act env s x))
             /\ stake_key r' = stake_key r /\ paid_tx r' = paid_tx r.
Proof.
  intros Hr. destruct x as [|i a|]; cbn [act]; [by exists r| |by exists r].
  destruct (tasks s !! i) as [k|] eqn:Hi; [|by exists r].
  pose proof (resume_shape k a (store s)) as Hshape.
  destruct (resume env k a (store s)) as [[k' db'] ev].
  cbv zeta in Hshape. unfold quiet in Hshape.
    cbn [fst snd] in Hshape. simpl.
  destruct Hshape as [(H1 & H2 & H3)|[E|[(u & p & sk & Hu & H1 & H2 & H3)
    |(u & p & sk & d & rest & h & -> & H1 & -> & H3)]]].
  - exists r. by rewrite H1.
  - injection E as -> -> ->. by exists r.
  - exists r. rewrite H1. split; [apply elem_of_app; by left|done].
  - exists (Sql.set_minted h (name d) (tx_hash u) r).
    split; [by apply list_elem_of_fmap_2|].
    by rewrite SqlFacts.set_minted_stake_key, SqlFacts.set_minted_paid_tx.
Qed.

Lemma exec_from_row (sched : list Action) :
  forall s r,
    r ∈ mints (store s) ->
    exists r', r' ∈ mints (store (exec_from env s sched))
               /\ stake_key r' = stake_key r /\ paid_tx r' = paid_tx r.
Proof.
  induction sched as [|x sched IH]; intros s r Hr; [by exists r|].
  destruct (act_row r s x Hr) as (r1 & H1 & E1 & E2).
  destruct (IH (act env s x) r1 H1) as (r2 & H2 & E3 & E4).
  exists r2. split; [done|]. split; congruence.
Qed.

(** [stake_key] is UNIQUE: the SELECT by stake key finds the row. *)
Lemma select_stake_unique (db : DB) (r : MintRow) :
  db_ok db -> r ∈ mints db -> Sql.select_stake db (stake_key r) = Some r.
Proof.
  intros (Hk & _ & _). unfold Sql.select_stake, stake_keys in *.
  induction (mints db) as [|a l IH]; intros Hr; [by apply elem_of_nil in Hr|].
  rewrite fmap_cons in Hk. apply NoDup_cons in Hk as [Ha Hl].
  rewrite filter_cons. apply elem_of_cons in Hr as [->|Hr].
  - by rewrite decide_True.
  - rewrite decide_False; [by apply IH|].
    intros E. apply Ha. rewrite E. by apply list_elem_of_fmap_2.
Qed.

(** A fulfilled row of a reachable state is settled. *)
Lemma fulfilled_settled (sched : list Action) (r : MintRow) :
  r ∈ mints (store (exec env sched)) -> minted_tx r <> None ->
  settled r (tasks (exec env sched)).
Proof.
  intros Hr Hm. destruct (exec_fulfil sched) as [HL HM].
  destruct (exec_ok env sched) as [Hdb _].
  specialize (HL (paid_tx r)). specialize (HM r Hr Hm).
  pose proof (rows_paid_le_1 (paid_tx r) _ Hdb).
  apply issuing_count_zero. lia.
Qed.

(** X10. Across all passes, their interleavings and restarts, the UPDATE
    that fulfils a payment runs at most once for each [paid_tx]. *)
Theorem fulfilled_once (sched : list Action) (t : string) :
  (minted_writes t (writes (trace (exec env sched))) <= 1)%nat.
Proof.
  destruct (exec_fulfil sched) as [HL _].
  destruct (exec_ok env sched) as [Hdb _].
  specialize (HL t). pose proof (rows_paid_le_1 t _ Hdb). lia.
Qed.

(** X11. A fulfilled row is final: once [minted_tx] is set, the row is in
    the table unchanged in every later state, whatever the passes do and
    however often the process restarts. *)
Theorem fulfilled_is_final (sched sched' : list Action) (r : MintRow) :
  r ∈ mints (store (exec env sched)) ->
  minted_tx r <> None ->
  r ∈ mints (store (exec env (sched ++ sched'))).
Proof.
  intros Hr Hm. rewrite exec_app.
  apply exec_from_settled; [done|by apply fulfilled_settled].
Qed.

(** X12. A restart freezes the table: a row that is there when the process
    restarts is there unchanged ever after, and [/api/status] for its
    stake key answers the same for ever.  A payment whose mint was in
    flight at the restart stays [paid]. *)
Theorem restart_freezes_rows (sched sched' : list Action) (r : MintRow) :
  r ∈ mints (store (exec env sched)) ->
  r ∈ mints (store (exec env (sched ++ Restart :: sched')))
  /\ status (store (exec env (sched ++ Restart :: sched'))) (stake_key r)
     = status (store (exec env sched)) (stake_key r).
Proof.
  intros Hr.
  assert (Hr' : r ∈ mints (store (exec env (sched ++ Restart :: sched')))).
  { rewrite exec_app. change (exec_from env ?s (Restart :: ?l))
      with (exec_from env (act env s Restart) l).
    apply exec_from_settled; [done|constructor]. }
  split; [done|]. unfold status.
  rewrite !select_stake_unique; try done; apply exec_ok.
Qed.

(** X13. [/api/status] only moves forward: a stake key that is [paid] for
    a transaction stays [paid] for that transaction or becomes [minted],
    and one that is [minted] keeps its answer for ever; neither goes back
    to [none]. *)
Theorem status_lifecycle (sched sched' : list Action) (k : string) :
  match status (store (exec env sched)) k with
  | StNone => True
  | StPaid t =>
      status (store (exec env (sched ++ sched'))) k = StPaid t
      \/ exists h a,
           status (store (exec env (sched ++ sched'))) k = StMinted h a
  | StMinted h a =>
      status (store (exec env (sched ++ sched'))) k = StMinted h a
  end.
Proof.
  unfold status at 1.
  destruct (Sql.select_stake _ k) as [r|] eqn:E; [|done].
  apply select_stake_elem in E as [Hr <-].
  destruct (truthy (minted_tx r)) as [h|] eqn:Hm.
  - assert (minted_tx r <> None) by (by destruct (minted_tx r)).
    unfold status.
    rewrite select_stake_unique, ?Hm; [done|apply exec_ok|].
    rewrite exec_app.
    apply exec_from_settled; [done|by apply fulfilled_settled].
  - destruct (exec_from_row sched' (exec env sched) r Hr)
      as (r' & Hr' & Ek & Et).
    rewrite <-exec_app in Hr'. unfold status.
    rewrite <-Ek, select_stake_unique, Et; [|apply exec_ok|done].
    destruct (truthy (minted_tx r')); [right; by eexists _, _|by left].
Qed.

End Fulfilment.

Lemma fulfilled_is_final_witness :
  let r := minted_row "stake1" "addr1" "T1" "M1" "Design_A" in
  r ∈ mints (store (exec sample_env sample_sched))
  /\ r ∈ mints (store (exec sample_env
                         (sample_sched ++ Restart :: retry_sched))).
Proof.
  intros r.
  assert (H : r ∈ mints (store (exec sample_env sample_sched))).
  { apply list_elem_of_In. vm_compute. auto. }
  split; [exact H|].
  apply (fulfilled_is_final sample_env sample_sched (Restart :: retry_sched)
           r H).
  discriminate.
Defined.

Lemma restart_freezes_rows_witness :
  let r := pending_row "stake1" "addr1" "T1" in
  r ∈ mints (store (exec sample_env crash_sched))
  /\ r ∈ mints (store (exec sample_env
                         (crash_sched ++ Restart :: retry_sched)))
  /\ status (store (exec sample_env (crash_sched ++ Restart :: retry_sched)))
            "stake1"
     = StPaid "T1".
Proof.
  intros r.
  assert (H : r ∈ mints (store (exec sample_env crash_sched))).
  { apply list_elem_of_In. vm_compute. auto. }
  split; [exact H|].
  destruct (restart_freezes_rows sample_env crash_sched retry_sched r H)
    as [H1 H2].
  split; [exact H1|]. exact H2.
Defined.

Lemma clean_pass_marks_page_witness :
  let page := [overpaid "T0" 0; paid "T1" 0] in
  let script := [RPage (Some page); RInputs (inputs_from "addr1") 0;
                 RIssue (Some "M1"); RTick] in
  let o := scanForPayments sample_env empty_db script in
  Forall (fun u => utxoId u ∈ seen_utxos o.1.2) page
  /\ scanForPayments sample_env o.1.2 [RPage (Some page)]
     = (KDone, o.1.2, [FetchPage]).
Proof.
  intros page script o.
  apply (clean_pass_marks_page sample_env page empty_db
           [RInputs (inputs_from "addr1") 0; RIssue (Some "M1"); RTick]).
  - reflexivity.
  - vm_compute. repeat constructor.
Defined.

Section Configuration.
Variable env : Env.

Lemma pretty_Z_not_empty (z : Z) : pretty z <> "".
Proof.
  intros E. pose proof (JsBigIntFacts.BigInt_pretty z) as H.
  rewrite E in H. injection H as <-. discriminate.
Qed.

(** X14. The price round-trips through the configuration and the API:
    [price_lovelace] of [/api/info], given back as [PRICE_LOVELACE],
    configures the same price, and a deposit of lovelace only whose
    quantity is that string is accepted by the classifier. *)
Theorem price_round_trip (NETWORK serverAddress policyId : string) :
  let info := api_info env NETWORK serverAddress policyId in
  parse_PRICE (Some (price_lovelace info)) = Some (PRICE env)
  /\ forall u,
       amount u = [{| unit := "lovelace";
                      quantity := price_lovelace info |}] ->
       qualifies env u = Some true.
Proof.
  intros info. split.
  - unfold parse_PRICE, or_default, truthy. simpl.
    rewrite decide_False by apply pretty_Z_not_empty.
    apply JsBigIntFacts.BigInt_pretty.
  - intros u Hu. unfold qualifies, qty, onlyLovelace. rewrite Hu. simpl.
    rewrite JsBigIntFacts.BigInt_pretty. simpl. by rewrite Z.eqb_refl.
Qed.

End Configuration.
